(** * Panel strategies: moving-average crossover, positions and compounding

    A shallow embedding of the notebook [Completed/10. Panel Strategies.ipynb]:
    the function [calculate_sma] (given in the exercise cell as its
    statements, out of order), the cell that applies it group-wise to the
    panel, the cell that computes daily and cumulative returns per ticker,
    and the exponential-average cell run on a single stock.

    Modelling choices.
    - A [float64] is an [option Q]: [None] is NaN (pandas' missing value),
      [Some q] an exact rational.  Rounding, overflow and infinities are
      not modelled; a zero price (division by zero in [pct_change]) is
      outside the model.
    - A data frame is the list of its rows.  The columns read from the CSV
      file ([Ticker], [DlyCalDt], [DlyClose]) are fields of the row; the
      columns the notebook assigns live in a string-keyed map per row.  A
      frame without rows does not record which columns it has.
    - The exercise cell fixes the statements of [calculate_sma] but not
      their order.  The properties of the function that depend on the
      order are proved for every arrangement of the statements that runs
      ([calculate_sma_arranged], [arrangements]).
    - A statement that assigns a column mutates the frame it is applied to:
      the code is written in a state-and-exception monad whose state is
      that frame, and the state survives an exception, as in Python.
    - The pandas and numpy calls are modelled at the level of their
      documentation ([rolling], [ewm], [shift], [pct_change], [cumprod],
      [groupby], [concat], [np.where]). *)

From Stdlib Require Import QArith OrdersEx.
From stdpp Require Import base option list gmap strings sorting.

Open Scope Z_scope.

(** ** Floating-point columns with missing values *)

Abbreviation float := (option Q).
Abbreviation NaN := (@None Q).

Definition Qgtb (a b : Q) : bool :=
  match (a ?= b)%Q with Gt => true | _ => false end.

Definition fadd (x y : float) : float :=
  match x, y with Some a, Some b => Some (a + b)%Q | _, _ => NaN end.
Definition fsub (x y : float) : float :=
  match x, y with Some a, Some b => Some (a - b)%Q | _, _ => NaN end.
Definition fmul (x y : float) : float :=
  match x, y with Some a, Some b => Some (a * b)%Q | _, _ => NaN end.
(** Division by zero is not modelled ([a / 0] is 0 in [Q], an infinity or
    NaN in [float64]): it needs a close of zero. *)
Definition fdiv (x y : float) : float :=
  match x, y with Some a, Some b => Some (a / b)%Q | _, _ => NaN end.

(** [x > y]: a comparison with NaN is [False]. *)
Definition fgt (x y : float) : bool :=
  match x, y with Some a, Some b => Qgtb a b | _, _ => false end.

Definition isna (x : float) : bool :=
  match x with None => true | Some _ => false end.

(** A cell of an assigned column: [float64] or [int64]. *)
Inductive cell :=
| Float (x : float)
| Int (z : Z).

(** Numeric view of a cell, as taken by arithmetic and comparisons. *)
Definition to_float (c : cell) : float :=
  match c with Float x => x | Int z => Some (inject_Z z) end.

(** ** Exceptions *)

Inductive exn := ValueError | AttributeError | KeyError.

Abbreviation result A := (exn + A)%type.

(** ** Series operations *)

Definition Qsum (l : list Q) : Q := foldr Qplus 0%Q l.

(** The observations (non-NaN values) of a slice. *)
Definition observations (l : list float) : list Q := omap id l.

(** [Series.rolling(window).mean()] with the default [min_periods = window].
    The window of index [i] is [xs[start:end]] with [end = i + 1] and
    [start = max (end - window) 0]; the mean is taken over its
    observations and is NaN unless there are at least [window] of them and
    at least one. *)
Definition roll_mean_at (w : nat) (xs : list float) (i : nat) : float :=
  let start := (S i - w)%nat in
  let obs := observations (take (S i - start) (drop start xs)) in
  let nobs := length obs in
  if (w <=? nobs)%nat && (0 <? nobs)%nat
  then Some (Qsum obs / inject_Z (Z.of_nat nobs))%Q
  else NaN.

(** [rolling] rejects a negative window ("window must be an integer 0 or
    greater") when the window object is built. *)
Definition roll_mean (w : nat) (xs : list cell) : list cell :=
  map (λ i, Float (roll_mean_at w (to_float <$> xs) i)) (seq 0 (length xs)).

Definition rolling_mean (window : Z) (xs : list cell) : result (list cell) :=
  if window <? 0 then inl ValueError
  else inr (roll_mean (Z.to_nat window) xs).

(** [Series.ewm(span, adjust=False).mean()]: smoothing factor
    [alpha = 2 / (span + 1)]; the average starts at the first observation
    and then follows [y = (1 - alpha) * y + alpha * x].  A NaN before the
    first observation gives NaN; a later NaN repeats the average and ages
    its weight.  (The closes of a frame are never missing, so the cells
    reach the branches without a NaN only; the arithmetic is exact, where
    pandas rounds every step to a [float64].) *)
Fixpoint ewm_loop (alpha : Q) (weighted : float) (old_wt : Q)
    (xs : list float) : list float :=
  match xs with
  | [] => []
  | cur :: rest =>
    match weighted, cur with
    | Some w, Some c =>
      let old_wt' := (old_wt * (1 - alpha))%Q in
      let w' := ((old_wt' * w + alpha * c) / (old_wt' + alpha))%Q in
      Some w' :: ewm_loop alpha (Some w') 1%Q rest
    | Some w, None =>
      Some w :: ewm_loop alpha (Some w) (old_wt * (1 - alpha))%Q rest
    | None, _ => cur :: ewm_loop alpha cur 1%Q rest
    end
  end.

(** [ewm] rejects a span below one ("span must satisfy: span >= 1"). *)
Definition ewm_mean (span : Z) (xs : list cell) : result (list cell) :=
  if span <? 1 then inl ValueError
  else inr (Float <$> ewm_loop (2 / (inject_Z span + 1))%Q NaN 1%Q
                               (to_float <$> xs)).

(** [Series.shift()]: every value moves one row down, the first row is
    NaN, the last value is dropped; an integer column becomes float. *)
Definition shift (xs : list cell) : list cell :=
  take (length xs) (Float NaN :: map (λ c, Float (to_float c)) xs).

(** [np.where(cond, a, b)] with scalars [a], [b]. *)
Definition np_where_const (cond : list bool) (a b : cell) : list cell :=
  map (λ c : bool, if c then a else b) cond.

(** [np.where(cond, a, ys)] with a scalar [a] and a column [ys]. *)
Definition np_where (cond : list bool) (a : cell) (ys : list cell) : list cell :=
  zip_with (λ (c : bool) y, if c then a else y) cond ys.

(** Element-wise [xs > ys], [xs.isna()], [xs * ys], [1 + xs], [xs - 1]. *)
Definition gt (xs ys : list cell) : list bool :=
  zip_with (λ x y, fgt (to_float x) (to_float y)) xs ys.
Definition isna_col (xs : list cell) : list bool :=
  map (λ x, isna (to_float x)) xs.
Definition mul (xs ys : list cell) : list cell :=
  zip_with (λ x y, Float (fmul (to_float x) (to_float y))) xs ys.
Definition one_plus (xs : list cell) : list cell :=
  map (λ x, Float (fadd (Some 1%Q) (to_float x))) xs.
Definition minus_one (xs : list cell) : list cell :=
  map (λ x, Float (fsub (to_float x) (Some 1%Q))) xs.

(** [Series.cumprod()] (skipna): a NaN row stays NaN and leaves the running
    product as it is. *)
Fixpoint cumprod_from (accum : Q) (xs : list cell) : list cell :=
  match xs with
  | [] => []
  | x :: rest =>
    match to_float x with
    | Some v => Float (Some (accum * v)%Q) :: cumprod_from (accum * v)%Q rest
    | None => Float NaN :: cumprod_from accum rest
    end
  end.
Definition cumprod (xs : list cell) : list cell := cumprod_from 1%Q xs.

(** [Series.pct_change()]: [xs / xs.shift() - 1]. *)
Definition pct_change (xs : list cell) : list cell :=
  zip_with (λ x p, Float (fsub (fdiv (to_float x) (to_float p)) (Some 1%Q)))
           xs (shift xs).

(** ** Data frames *)

Record Row := mkRow {
  Ticker : string;          (* identifier of the asset *)
  DlyCalDt : Z;             (* calendar day *)
  DlyClose : Q;             (* close price *)
  extra : gmap string cell  (* the columns assigned by the notebook *)
}.

Abbreviation DataFrame := (list Row).

Definition set_extra (c : string) (v : cell) (r : Row) : Row :=
  mkRow (Ticker r) (DlyCalDt r) (DlyClose r) (<[c := v]> (extra r)).

(** [df.c] for an assigned column [c]; AttributeError when the frame has
    no such column.  A frame is the list of its rows, so a frame without
    rows does not record which columns it has: reading any column of it
    gives the empty column, as pandas does for a column the frame has.
    What is proved about a column that is absent is therefore stated for
    frames with at least one row. *)
Fixpoint getcol (c : string) (df : DataFrame) : result (list cell) :=
  match df with
  | [] => inr []
  | r :: rest =>
    match extra r !! c, getcol c rest with
    | Some v, inr vs => inr (v :: vs)
    | _, _ => inl AttributeError
    end
  end.

(** [df[c] = values], row by row. *)
Definition setcol (c : string) (values : list cell) (df : DataFrame) : DataFrame :=
  zip_with (λ r v, set_extra c v r) df values.

Definition col_DlyClose (df : DataFrame) : list cell :=
  map (λ r, Float (Some (DlyClose r))) df.
Definition col_Ticker (df : DataFrame) : list string := map Ticker df.

(** ** The monad of the notebook's statements

    The state is the data frame the statements assign into; an exception
    stops the run and keeps the state reached so far. *)

Definition M (A : Type) : Type := DataFrame → result A * DataFrame.

#[global] Instance M_ret : MRet M := λ A a df, (inr a, df).
#[global] Instance M_bind : MBind M := λ A B k m df,
  match m df with
  | (inr a, df') => k a df'
  | (inl e, df') => (inl e, df')
  end.

(** A library call that may raise. *)
Definition call {A} (r : result A) : M A := λ df, (r, df).
(** The frame itself, as a value (a reference to the same object). *)
Definition self : M DataFrame := λ df, (inr df, df).
(** [df.DlyClose] and [df.Ticker], the columns of the loaded file. *)
Definition DlyClose_ : M (list cell) := λ df, (inr (col_DlyClose df), df).
Definition Ticker_ : M (list string) := λ df, (inr (col_Ticker df), df).
(** [df.c] and [df[c] = values] for the columns the notebook assigns. *)
Definition getattr (c : string) : M (list cell) := λ df, (getcol c df, df).
Definition setitem (c : string) (values : list cell) : M unit :=
  λ df, (inr tt, setcol c values df).

(** ** [calculate_sma]

    The exercise cell gives the function as its statements, "correct, but
    out-of-order", to be re-arranged.  [calculate_sma] has them in the
    order of the exponential-average cell: both averages, the signal, the
    zeroing of the signal where the slow average is missing, then the
    position; this is the function the panel cells below call.
    [calculate_sma_arranged], after it, takes the order of the statements
    as an argument.  The function assigns into [dfi] and returns [dfi]. *)
Definition calculate_sma (fast_window slow_window : Z) : M DataFrame :=
  close ← DlyClose_; fast ← call (rolling_mean fast_window close);
  setitem "FastMA" fast;;
  close ← DlyClose_; slow ← call (rolling_mean slow_window close);
  setitem "SlowMA" slow;;
  fastma ← getattr "FastMA"; slowma ← getattr "SlowMA";
  setitem "Signal" (np_where_const (gt fastma slowma) (Int 1) (Int (-1)));;
  slowma ← getattr "SlowMA"; signal ← getattr "Signal";
  setitem "Signal" (np_where (isna_col slowma) (Int 0) signal);;
  signal ← getattr "Signal";
  setitem "Position" (shift signal);;
  self.

(** The five statements of the exercise cell, in the order of the cell. *)
Inductive statement :=
| FastMA_rolling      (* dfi["FastMA"] = dfi.DlyClose.rolling(window=fast_window).mean() *)
| Position_shift      (* dfi["Position"] = dfi.Signal.shift() *)
| Signal_zeroing      (* dfi.Signal = np.where(dfi.SlowMA.isna(), 0, dfi.Signal) *)
| Signal_comparison   (* dfi["Signal"] = np.where(dfi.FastMA > dfi.SlowMA, 1, -1) *)
| SlowMA_rolling.     (* dfi["SlowMA"] = dfi.DlyClose.rolling(window=slow_window).mean() *)

#[global] Instance statement_eq_dec : EqDecision statement.
Proof. solve_decision. Defined.

Definition statements : list statement :=
  [FastMA_rolling; Position_shift; Signal_zeroing; Signal_comparison;
   SlowMA_rolling].

Definition run_statement (fast_window slow_window : Z) (s : statement)
    : M unit :=
  match s with
  | FastMA_rolling =>
    close ← DlyClose_; fast ← call (rolling_mean fast_window close);
    setitem "FastMA" fast
  | Position_shift =>
    signal ← getattr "Signal";
    setitem "Position" (shift signal)
  | Signal_zeroing =>
    slowma ← getattr "SlowMA"; signal ← getattr "Signal";
    setitem "Signal" (np_where (isna_col slowma) (Int 0) signal)
  | Signal_comparison =>
    fastma ← getattr "FastMA"; slowma ← getattr "SlowMA";
    setitem "Signal" (np_where_const (gt fastma slowma) (Int 1) (Int (-1)))
  | SlowMA_rolling =>
    close ← DlyClose_; slow ← call (rolling_mean slow_window close);
    setitem "SlowMA" slow
  end.

Fixpoint run_statements (fast_window slow_window : Z)
    (body : list statement) : M unit :=
  match body with
  | [] => mret ()
  | s :: rest =>
    run_statement fast_window slow_window s;;
    run_statements fast_window slow_window rest
  end.

(** [calculate_sma] with its statements in the order [body], between the
    [def] line and [return dfi]. *)
Definition calculate_sma_arranged (body : list statement)
    (fast_window slow_window : Z) : M DataFrame :=
  run_statements fast_window slow_window body;; self.

(** ** Grouping by ticker *)

Definition str_le (a b : string) : Prop := String.leb a b = true.
#[global] Instance str_le_dec : RelDecision str_le :=
  λ a b, decide (String.leb a b = true).

(** The group keys: the distinct tickers, sorted. *)
Definition group_keys (df : DataFrame) : list string :=
  merge_sort str_le (remove_dups (col_Ticker df)).

(** The rows of one ticker, in the order of the frame. *)
Definition rows_of (name : string) (df : DataFrame) : DataFrame :=
  filter (λ r, Ticker r = name) df.

(** [df.groupby("Ticker")], as iterated: [(name, group)] per key. *)
Definition groupby (df : DataFrame) : list (string * DataFrame) :=
  map (λ name, (name, rows_of name df)) (group_keys df).

(** [df.groupby("Ticker").get_group(name)]; KeyError for an unknown key. *)
Definition get_group (name : string) (df : DataFrame) : result DataFrame :=
  if decide (name ∈ col_Ticker df) then inr (rows_of name df)
  else inl KeyError.

(** [pd.concat(frames)]: the rows of the frames, one frame after the
    other; ValueError ("No objects to concatenate") for no frame. *)
Definition pd_concat (frames : list DataFrame) : result DataFrame :=
  match frames with
  | [] => inl ValueError
  | _ => inr (concat frames)
  end.

(** Group-wise [shift]: per ticker, the value of the previous row of that
    ticker. *)
Fixpoint group_shift_from (last : gmap string cell) (keys : list string)
    (xs : list cell) : list cell :=
  match keys, xs with
  | k :: keys, x :: xs =>
    Float (default NaN (to_float <$> last !! k))
      :: group_shift_from (<[k := x]> last) keys xs
  | _, _ => []
  end.
Definition group_shift : list string → list cell → list cell :=
  group_shift_from ∅.

(** [groupby(...).pct_change()]: [xs / group-wise shift of xs - 1]. *)
Definition group_pct_change (keys : list string) (xs : list cell) : list cell :=
  zip_with (λ x p, Float (fsub (fdiv (to_float x) (to_float p)) (Some 1%Q)))
           xs (group_shift keys xs).

(** [groupby(...).cumprod()]: one running product per ticker, starting
    at 1; a NaN row stays NaN and leaves the product of its ticker as it
    is. *)
Fixpoint group_cumprod_from (accum : gmap string Q) (keys : list string)
    (xs : list cell) : list cell :=
  match keys, xs with
  | k :: keys, x :: xs =>
    match to_float x with
    | Some v =>
      let a := (default 1%Q (accum !! k) * v)%Q in
      Float (Some a) :: group_cumprod_from (<[k := a]> accum) keys xs
    | None => Float NaN :: group_cumprod_from accum keys xs
    end
  | _, _ => []
  end.
Definition group_cumprod : list string → list cell → list cell :=
  group_cumprod_from ∅.

(** ** The cells of the notebook *)

(** The loop [for name, group in grouped: groups.append(calculate_sma(group,
    fast, slow))]. *)
Fixpoint apply_groups (f : M DataFrame) (grouped : list (string * DataFrame))
    : result (list DataFrame) :=
  match grouped with
  | [] => inr []
  | (name, group) :: rest =>
    match f group with
    | (inr g, _) =>
      match apply_groups f rest with
      | inr gs => inr (g :: gs)
      | inl e => inl e
      end
    | (inl e, _) => inl e
    end
  end.

(** The cell that applies [calculate_sma] group-wise and concatenates. *)
Definition panel_sma (fast_window slow_window : Z) (df : DataFrame)
    : result DataFrame :=
  match apply_groups (calculate_sma fast_window slow_window) (groupby df) with
  | inr groups => pd_concat groups
  | inl e => inl e
  end.

(** The cell of the market and strategy returns of the panel. *)
Definition panel_returns : M unit :=
  ticker ← Ticker_; close ← DlyClose_;
  setitem "MarketDaily" (group_pct_change ticker close);;
  position ← getattr "Position"; daily ← getattr "MarketDaily";
  setitem "StrategyDaily" (mul position daily);;
  daily ← getattr "MarketDaily"; ticker ← Ticker_;
  setitem "Market" (group_cumprod ticker (one_plus daily));;
  daily ← getattr "StrategyDaily"; ticker ← Ticker_;
  setitem "Strategy" (group_cumprod ticker (one_plus daily)).

(** The exponential-average cell; its state is [ema = meta.copy()]. *)
Definition ema_strategy (fast_window slow_window : Z) : M unit :=
  close ← DlyClose_; fast ← call (ewm_mean fast_window close);
  setitem "FastEMA" fast;;
  close ← DlyClose_; slow ← call (ewm_mean slow_window close);
  setitem "SlowEMA" slow;;
  fastema ← getattr "FastEMA"; slowema ← getattr "SlowEMA";
  setitem "Signal" (np_where_const (gt fastema slowema) (Int 1) (Int (-1)));;
  slowema ← getattr "SlowEMA"; signal ← getattr "Signal";
  setitem "Signal" (np_where (isna_col slowema) (Int 0) signal);;
  signal ← getattr "Signal";
  setitem "Position" (shift signal);;
  position ← getattr "Position"; daily ← getattr "MarketDaily";
  setitem "StratRet" (mul position daily);;
  stratret ← getattr "StratRet";
  setitem "Strategy" (minus_one (cumprod (one_plus stratret))).

(** The frame a run leaves behind, when it raises nothing. *)
Definition exec {A} (m : M A) (df : DataFrame) : result DataFrame :=
  match m df with
  | (inr _, df') => inr df'
  | (inl e, _) => inl e
  end.

(** The two cells of the panel, one after the other. *)
Definition panel (fast_window slow_window : Z) (df : DataFrame)
    : result DataFrame :=
  match panel_sma fast_window slow_window df with
  | inr df => exec panel_returns df
  | inl e => inl e
  end.

(** The notebook from the loaded panel [df] to the frame [ema]; the cells
    have [fast_window = 50] and [slow_window = 200].  [set_index] changes
    the row labels only, which the model does not carry: every operation
    here works on rows in order. *)
Definition notebook (fast_window slow_window : Z) (df : DataFrame)
    : result DataFrame :=
  match panel fast_window slow_window df with
  | inr df =>
    match get_group "META" df with
    | inr meta => exec (ema_strategy fast_window slow_window) meta
    | inl e => inl e
    end
  | inl e => inl e
  end.

Definition prices (t : string) (closes : list Q) : DataFrame :=
  imap (λ i c, mkRow t (Z.of_nat i) c ∅) closes.

(** ** Columns, frames and predicates used to state the properties *)

(** The signal column after both [np.where] assignments. *)
Definition crossover_signal (fast slow : list cell) : list cell :=
  np_where (isna_col slow) (Int 0)
           (np_where_const (gt fast slow) (Int 1) (Int (-1))).

(** The frame after the five assignments (fast and slow average, signal
    twice, position). *)
Definition crossover_frame (fastc slowc : string) (fast slow : list cell)
    (df : DataFrame) : DataFrame :=
  setcol "Position" (shift (crossover_signal fast slow))
    (setcol "Signal" (crossover_signal fast slow)
      (setcol "Signal" (np_where_const (gt fast slow) (Int 1) (Int (-1)))
        (setcol slowc slow (setcol fastc fast df)))).

(** The trailing window of [w] closes that ends at index [i]. *)
Definition trailing (w i : nat) (qs : list Q) : list Q :=
  take w (drop (S i - w) qs).

(** The rule of the signal, value by value. *)
Definition signal_of (f s : float) : Z :=
  if isna s then 0 else if fgt f s then 1 else -1.

(** The columns a frame holds after a crossover: the two averages, the
    signal and the position, all as long as the frame, related by [P]. *)
Definition crossover_columns (fastc slowc : string) (df : DataFrame)
    (P : list cell → list cell → list cell → list cell → Prop) : Prop :=
  ∃ fast slow signal position,
    getcol fastc df = inr fast ∧ getcol slowc df = inr slow ∧
    getcol "Signal" df = inr signal ∧ getcol "Position" df = inr position ∧
    length fast = length df ∧ length slow = length df ∧
    length signal = length df ∧ length position = length df ∧
    P fast slow signal position.

(** The signal is an integer among -1, 0 and 1: 0 where the slow average
    is missing, 1 where the fast average exceeds the slow one, -1 in every
    other case, a tie included. *)
Definition signal_rule (fast slow signal : list cell) : Prop :=
  ∀ i : nat, (i < length signal)%nat →
    ∃ (f s : float) (z : Z),
      fast !! i = Some (Float f) ∧ slow !! i = Some (Float s) ∧
      signal !! i = Some (Int z) ∧
      (z = -1 ∨ z = 0 ∨ z = 1) ∧
      (s = NaN → z = 0) ∧
      (∀ a b, f = Some a → s = Some b → (b < a)%Q → z = 1) ∧
      (∀ b, s = Some b → f = NaN → z = -1) ∧
      (∀ a b, f = Some a → s = Some b → (a <= b)%Q → z = -1).

(** The series of the specification's example. *)
Definition spec_example : DataFrame :=
  prices "META" [10; 11; 12; 9; 8; 14]%Q.


(** A simple average over [window] closes is missing before index
    [window - 1] and is, from there on, the mean of the trailing [window]
    closes. *)
Definition sma_defined_from (window : Z) (closes : list Q) (avg : list cell)
    : Prop :=
  ∀ i : nat, (i < length closes)%nat →
    (Z.of_nat i < window - 1 → avg !! i = Some (Float NaN)) ∧
    (window - 1 ≤ Z.of_nat i →
     avg !! i = Some (Float (Some (Qsum (trailing (Z.to_nat window) i closes)
                                   / inject_Z window)%Q))).

Definition defined_everywhere (avg : list cell) : Prop :=
  ∀ i : nat, (i < length avg)%nat → ∃ q, avg !! i = Some (Float (Some q)).

Definition never_flat (signal position : list cell) : Prop :=
  (∀ i : nat, (i < length signal)%nat →
     ∃ z, signal !! i = Some (Int z) ∧ (z = 1 ∨ z = -1)) ∧
  (∀ i : nat, (S i < length position)%nat →
     ∃ z, position !! S i = Some (Float (Some (inject_Z z))) ∧
          (z = 1 ∨ z = -1)).

(** [dfo] has the rows of [dfi], with the same ticker, day and close, and
    the same value in every column outside [cols]. *)
Definition same_outside (cols : list string) (dfi dfo : DataFrame) : Prop :=
  Forall2 (λ a b, Ticker b = Ticker a ∧ DlyCalDt b = DlyCalDt a ∧
                  DlyClose b = DlyClose a ∧
                  ∀ c, c ∉ cols → extra b !! c = extra a !! c) dfi dfo.

(** The frame [calculate_sma] leaves and returns. *)
Definition sma_frame (fw sw : Z) (dfi : DataFrame) : DataFrame :=
  (calculate_sma fw sw dfi).2.

(** The concatenated frame of the panel: per key, in key order, the frame
    [calculate_sma] returns for the rows of that key. *)
Definition panel_frame (fw sw : Z) (df : DataFrame) : DataFrame :=
  concat (map (λ k, sma_frame fw sw (rows_of k df)) (group_keys df)).

(** The values of a column at the rows of one ticker. *)
Fixpoint select {A} (name : string) (keys : list string) (xs : list A)
    : list A :=
  match keys, xs with
  | k :: keys, x :: xs =>
    if decide (k = name) then x :: select name keys xs
    else select name keys xs
  | _, _ => []
  end.

(** [shift] as a loop that carries the previous value. *)
Fixpoint shift_from (prev : float) (xs : list cell) : list cell :=
  match xs with
  | [] => []
  | x :: xs => Float prev :: shift_from (to_float x) xs
  end.

(** The returns cell for one asset: the same statements with the plain
    [pct_change] and [cumprod] in place of the group-wise ones. *)
Definition single_returns : M unit :=
  close ← DlyClose_;
  setitem "MarketDaily" (pct_change close);;
  position ← getattr "Position"; daily ← getattr "MarketDaily";
  setitem "StrategyDaily" (mul position daily);;
  daily ← getattr "MarketDaily";
  setitem "Market" (cumprod (one_plus daily));;
  daily ← getattr "StrategyDaily";
  setitem "Strategy" (cumprod (one_plus daily)).

(** The frame after the four assignments of the returns cell. *)
Definition returns_frame (daily sdaily market strategy : list cell)
    (df : DataFrame) : DataFrame :=
  setcol "Strategy" strategy
    (setcol "Market" market
      (setcol "StrategyDaily" sdaily (setcol "MarketDaily" daily df))).

(** The columns of one asset, from its closes alone. *)
Definition asset_position (fw sw : Z) (closes : list cell) : list cell :=
  shift (crossover_signal (roll_mean (Z.to_nat fw) closes)
                          (roll_mean (Z.to_nat sw) closes)).
Definition asset_daily (closes : list cell) : list cell := pct_change closes.
Definition asset_strategy_daily (fw sw : Z) (closes : list cell) : list cell :=
  mul (asset_position fw sw closes) (asset_daily closes).
Definition asset_market (closes : list cell) : list cell :=
  cumprod (one_plus (asset_daily closes)).
Definition asset_strategy (fw sw : Z) (closes : list cell) : list cell :=
  cumprod (one_plus (asset_strategy_daily fw sw closes)).

(** A panel of two assets with the closes of the specification's example,
    rows interleaved. *)
Definition two_assets : DataFrame :=
  [mkRow "META" 0 10 ∅; mkRow "AAPL" 0 10 ∅; mkRow "META" 1 11 ∅;
   mkRow "AAPL" 1 11 ∅; mkRow "AAPL" 2 12 ∅; mkRow "META" 2 12 ∅;
   mkRow "META" 3 9 ∅; mkRow "META" 4 8 ∅; mkRow "AAPL" 3 9 ∅;
   mkRow "AAPL" 4 8 ∅; mkRow "AAPL" 5 14 ∅; mkRow "META" 5 14 ∅]%Q.

(** The running product of the specification: the product of the defined
    values among [xs[0..i]]. *)
Definition running_product (xs : list cell) (i : nat) : Q :=
  foldl Qmult 1%Q (observations (to_float <$> take (S i) xs)).

(** The part of a row that comes from the loaded file. *)
Definition base (r : Row) : string * Z * Q :=
  (Ticker r, DlyCalDt r, DlyClose r).

(** The recurrence of the exponential average: it starts at the first
    close and then moves by [alpha = 2 / (span + 1)] towards each new
    close. *)
Definition ema_recurrence (span : Z) (closes : list Q) (avg : list cell)
    : Prop :=
  let alpha := (2 / (inject_Z span + 1))%Q in
  (∀ c, closes !! 0%nat = Some c → avg !! 0%nat = Some (Float (Some c))) ∧
  (∀ (i : nat) c, closes !! S i = Some c →
     ∃ y y', avg !! i = Some (Float (Some y)) ∧
             avg !! S i = Some (Float (Some y')) ∧
             (y' == (1 - alpha) * y + alpha * c)%Q).

(** The column an assignment statement of [calculate_sma] assigns, and the
    assigned columns it reads. *)
Definition assigns (s : statement) : string :=
  match s with
  | FastMA_rolling => "FastMA"
  | SlowMA_rolling => "SlowMA"
  | Signal_comparison | Signal_zeroing => "Signal"
  | Position_shift => "Position"
  end.
Definition reads (s : statement) : list string :=
  match s with
  | FastMA_rolling | SlowMA_rolling => []
  | Signal_comparison => ["FastMA"; "SlowMA"]
  | Signal_zeroing => ["SlowMA"; "Signal"]
  | Position_shift => ["Signal"]
  end.

(** Every statement of [body] reads columns of [have] or columns that an
    earlier statement of [body] assigns. *)
Fixpoint reads_assigned (have : list string) (body : list statement)
    : bool :=
  match body with
  | [] => true
  | s :: rest =>
    forallb (λ c, bool_decide (c ∈ have)) (reads s)
    && reads_assigned (assigns s :: have) rest
  end.

(** The arrangements of the five statements in which every statement comes
    after the ones that assign the columns it reads: the two averages in
    either order, the comparison, then the zeroing and the position in
    either order. *)
Definition arrangements : list (list statement) :=
  [ [FastMA_rolling; SlowMA_rolling; Signal_comparison; Signal_zeroing;
     Position_shift];
    [SlowMA_rolling; FastMA_rolling; Signal_comparison; Signal_zeroing;
     Position_shift];
    [FastMA_rolling; SlowMA_rolling; Signal_comparison; Position_shift;
     Signal_zeroing];
    [SlowMA_rolling; FastMA_rolling; Signal_comparison; Position_shift;
     Signal_zeroing] ].

(** Of the statements [a] and [b], [a] is the one met first in [body]. *)
Fixpoint comes_before (a b : statement) (body : list statement) : bool :=
  match body with
  | [] => false
  | s :: rest =>
    if decide (s = a) then true
    else if decide (s = b) then false
    else comes_before a b rest
  end.
Definition zeroing_first : list statement → bool :=
  comes_before Signal_zeroing Position_shift.
Definition fast_first : list statement → bool :=
  comes_before FastMA_rolling SlowMA_rolling.

(** The signal column after the comparison, before the zeroing. *)
Definition comparison_signal (fast slow : list cell) : list cell :=
  np_where_const (gt fast slow) (Int 1) (Int (-1)).

(** The column [Position_shift] reads in the arrangement [body]. *)
Definition position_signal (body : list statement) (fast slow : list cell)
    : list cell :=
  if zeroing_first body then crossover_signal fast slow
  else comparison_signal fast slow.

(** The frame after the five assignments of [calculate_sma], in the
    arrangement [body]. *)
Definition arranged_frame (body : list statement) (fast slow : list cell)
    (df : DataFrame) : DataFrame :=
  setcol "Position" (shift (position_signal body fast slow))
    (setcol "Signal" (crossover_signal fast slow)
      (setcol "Signal" (comparison_signal fast slow)
        (setcol "SlowMA" slow (setcol "FastMA" fast df)))).


(** The frame is as loaded from the file: no column has been assigned. *)
Definition as_loaded (df : DataFrame) : Prop :=
  Forall (λ r, extra r = ∅) df.

(** The frame has a first row, and that row has no assigned column outside
    [have]. *)
Definition columns_within (have : list string) (df : DataFrame) : Prop :=
  ∃ r rest, df = r :: rest ∧ ∀ c, c ∉ have → extra r !! c = None.

(** * Properties *)

(** ** Lengths of the series operations *)

Lemma length_rolling_mean w xs ys :
  rolling_mean w xs = inr ys → length ys = length xs.
Proof.
  unfold rolling_mean. destruct (w <? 0); [discriminate|].
  intros [= <-]. unfold roll_mean. by rewrite length_map, length_seq.
Qed.

Lemma length_ewm_loop alpha weighted old_wt xs :
  length (ewm_loop alpha weighted old_wt xs) = length xs.
Proof.
  revert weighted old_wt.
  induction xs as [|cur rest IH]; intros weighted old_wt; [done|].
  simpl. destruct weighted, cur; simpl; by rewrite IH.
Qed.

Lemma length_ewm_mean span xs ys :
  ewm_mean span xs = inr ys → length ys = length xs.
Proof.
  unfold ewm_mean. destruct (span <? 1); [discriminate|].
  intros [= <-]. by rewrite length_fmap, length_ewm_loop, length_fmap.
Qed.

Lemma length_shift xs : length (shift xs) = length xs.
Proof. unfold shift. rewrite length_take. simpl. rewrite length_map. lia. Qed.

Lemma length_gt xs ys : length ys = length xs → length (gt xs ys) = length xs.
Proof. intros H. unfold gt. rewrite length_zip_with. lia. Qed.

Lemma length_np_where cond a ys :
  length ys = length cond → length (np_where cond a ys) = length cond.
Proof. intros H. unfold np_where. rewrite length_zip_with. lia. Qed.

Lemma length_mul xs ys : length ys = length xs → length (mul xs ys) = length xs.
Proof. intros H. unfold mul. rewrite length_zip_with. lia. Qed.

Lemma length_cumprod_from accum xs : length (cumprod_from accum xs) = length xs.
Proof.
  revert accum. induction xs as [|x rest IH]; intros accum; [done|].
  simpl. destruct (to_float x); simpl; by rewrite IH.
Qed.

Lemma length_pct_change xs : length (pct_change xs) = length xs.
Proof. unfold pct_change. rewrite length_zip_with, length_shift. lia. Qed.

(** ** Reading and assigning columns *)

Lemma length_setcol c vs df :
  length vs = length df → length (setcol c vs df) = length df.
Proof. intros H. unfold setcol. rewrite length_zip_with. lia. Qed.

Lemma getcol_setcol_eq c vs df :
  length vs = length df → getcol c (setcol c vs df) = inr vs.
Proof.
  revert vs. induction df as [|r df IH]; intros [|v vs] Hlen;
    try discriminate; [done|].
  simpl in *. rewrite lookup_insert_eq.
  rewrite IH by lia. done.
Qed.

Lemma getcol_setcol_ne c c' vs df :
  c ≠ c' → length vs = length df →
  getcol c' (setcol c vs df) = getcol c' df.
Proof.
  intros Hne. revert vs. induction df as [|r df IH]; intros [|v vs] Hlen;
    try discriminate; [done|].
  simpl in *. rewrite lookup_insert_ne by done.
  rewrite IH by lia. done.
Qed.

Lemma length_getcol c df vs : getcol c df = inr vs → length vs = length df.
Proof.
  revert vs. induction df as [|r df IH]; intros vs; simpl.
  - by intros [= <-].
  - destruct (extra r !! c); [|discriminate].
    destruct (getcol c df) as [e|ws]; [discriminate|].
    intros [= <-]. simpl. f_equal. by apply IH.
Qed.

Lemma col_DlyClose_setcol c vs df :
  length vs = length df → col_DlyClose (setcol c vs df) = col_DlyClose df.
Proof.
  revert vs. induction df as [|r df IH]; intros [|v vs] Hlen;
    try discriminate; [done|].
  simpl in *. f_equal. apply IH. lia.
Qed.

Lemma col_Ticker_setcol c vs df :
  length vs = length df → col_Ticker (setcol c vs df) = col_Ticker df.
Proof.
  revert vs. induction df as [|r df IH]; intros [|v vs] Hlen;
    try discriminate; [done|].
  simpl in *. f_equal. apply IH. lia.
Qed.

Lemma length_col_DlyClose df : length (col_DlyClose df) = length df.
Proof. apply length_map. Qed.

Lemma length_col_Ticker df : length (col_Ticker df) = length df.
Proof. apply length_map. Qed.

(** ** The frame a crossover leaves behind *)

Lemma length_crossover_signal fast slow :
  length slow = length fast → length (crossover_signal fast slow) = length fast.
Proof.
  intros H. unfold crossover_signal, np_where, np_where_const, isna_col, gt.
  rewrite length_zip_with, !length_map, length_zip_with. lia.
Qed.

Ltac run_step :=
  unfold mbind, M_bind, mret, M_ret, DlyClose_, Ticker_, call, setitem,
    getattr, self; cbv beta iota.

(** Equalities between lengths of columns. *)
Lemma length_setcol_min c vs df :
  length (setcol c vs df) = (length df `min` length vs)%nat.
Proof. apply length_zip_with. Qed.

Lemma length_mul_min xs ys : length (mul xs ys) = (length xs `min` length ys)%nat.
Proof. apply length_zip_with. Qed.

Lemma length_one_plus xs : length (one_plus xs) = length xs.
Proof. apply length_map. Qed.

Lemma length_minus_one xs : length (minus_one xs) = length xs.
Proof. apply length_map. Qed.

Lemma length_cumprod xs : length (cumprod xs) = length xs.
Proof. apply length_cumprod_from. Qed.

Ltac solve_len_folded :=
  repeat rewrite ?length_setcol_min, ?length_mul_min, ?length_one_plus,
    ?length_minus_one, ?length_cumprod, ?length_pct_change, ?length_shift,
    ?length_col_DlyClose, ?length_col_Ticker in *;
  lia.

Ltac solve_len_unfolded :=
  unfold crossover_signal, setcol, np_where, np_where_const, isna_col, gt,
    mul, one_plus, minus_one, cumprod, pct_change, col_DlyClose, col_Ticker;
  repeat rewrite ?length_zip_with, ?length_map, ?length_fmap, ?length_shift,
    ?length_cumprod_from, ?length_seq;
  lia.

Ltac solve_len := first [solve_len_folded | solve_len_unfolded].

Ltac read_col :=
  first [ rewrite getcol_setcol_eq by solve_len
        | rewrite getcol_setcol_ne by first [done | solve_len] ].

Lemma calculate_sma_run fw sw dfi fast slow :
  rolling_mean fw (col_DlyClose dfi) = inr fast →
  rolling_mean sw (col_DlyClose dfi) = inr slow →
  calculate_sma fw sw dfi
  = (inr (crossover_frame "FastMA" "SlowMA" fast slow dfi),
     crossover_frame "FastMA" "SlowMA" fast slow dfi).
Proof.
  intros Hf Hs.
  pose proof (length_rolling_mean _ _ _ Hf) as Lf.
  pose proof (length_rolling_mean _ _ _ Hs) as Ls.
  rewrite length_col_DlyClose in Lf, Ls.
  unfold calculate_sma. run_step.
  rewrite Hf. cbv beta iota.
  rewrite col_DlyClose_setcol, Hs by done. cbv beta iota.
  repeat (read_col; cbv beta iota).
  reflexivity.
Qed.

Section crossover_frame.
Variables (fastc slowc : string) (fast slow : list cell) (df : DataFrame).
Hypothesis fast_slow : slowc ≠ fastc.
Hypothesis fast_signal : "Signal" ≠ fastc.
Hypothesis fast_position : "Position" ≠ fastc.
Hypothesis slow_signal : "Signal" ≠ slowc.
Hypothesis slow_position : "Position" ≠ slowc.
Hypothesis length_fast : length fast = length df.
Hypothesis length_slow : length slow = length df.

Lemma length_crossover_frame :
  length (crossover_frame fastc slowc fast slow df) = length df.
Proof using length_fast length_slow. unfold crossover_frame. solve_len. Qed.

Lemma crossover_frame_fast :
  getcol fastc (crossover_frame fastc slowc fast slow df) = inr fast.
Proof using All. unfold crossover_frame. by repeat read_col. Qed.

Lemma crossover_frame_slow :
  getcol slowc (crossover_frame fastc slowc fast slow df) = inr slow.
Proof using All. unfold crossover_frame. by repeat read_col. Qed.

Lemma crossover_frame_signal :
  getcol "Signal" (crossover_frame fastc slowc fast slow df)
  = inr (crossover_signal fast slow).
Proof using length_fast length_slow.
  unfold crossover_frame. by repeat read_col.
Qed.

Lemma crossover_frame_position :
  getcol "Position" (crossover_frame fastc slowc fast slow df)
  = inr (shift (crossover_signal fast slow)).
Proof using length_fast length_slow.
  unfold crossover_frame. by repeat read_col.
Qed.

Lemma crossover_frame_other c :
  c ∉ [fastc; slowc; "Signal"; "Position"] →
  getcol c (crossover_frame fastc slowc fast slow df) = getcol c df.
Proof using length_fast length_slow.
  intros Hc. unfold crossover_frame.
  apply not_elem_of_cons in Hc as [H1 Hc].
  apply not_elem_of_cons in Hc as [H2 Hc].
  apply not_elem_of_cons in Hc as [H3 Hc].
  apply not_elem_of_cons in Hc as [H4 _].
  repeat (rewrite getcol_setcol_ne by first [congruence | solve_len]).
  done.
Qed.

Lemma crossover_frame_DlyClose :
  col_DlyClose (crossover_frame fastc slowc fast slow df) = col_DlyClose df.
Proof using length_fast length_slow.
  unfold crossover_frame.
  repeat (rewrite col_DlyClose_setcol by solve_len). done.
Qed.

Lemma crossover_frame_Ticker :
  col_Ticker (crossover_frame fastc slowc fast slow df) = col_Ticker df.
Proof using length_fast length_slow.
  unfold crossover_frame.
  repeat (rewrite col_Ticker_setcol by solve_len). done.
Qed.
End crossover_frame.

Lemma ema_strategy_run fw sw meta fast slow :
  ewm_mean fw (col_DlyClose meta) = inr fast →
  ewm_mean sw (col_DlyClose meta) = inr slow →
  ema_strategy fw sw meta
  = let ema := crossover_frame "FastEMA" "SlowEMA" fast slow meta in
    match getcol "MarketDaily" meta with
    | inl e => (inl e, ema)
    | inr daily =>
      let stratret := mul (shift (crossover_signal fast slow)) daily in
      (inr (), setcol "Strategy" (minus_one (cumprod (one_plus stratret)))
                 (setcol "StratRet" stratret ema))
    end.
Proof.
  intros Hf Hs.
  pose proof (length_ewm_mean _ _ _ Hf) as Lf.
  pose proof (length_ewm_mean _ _ _ Hs) as Ls.
  rewrite length_col_DlyClose in Lf, Ls.
  unfold ema_strategy. run_step.
  rewrite Hf. cbv beta iota.
  rewrite col_DlyClose_setcol, Hs by done. cbv beta iota zeta.
  repeat (read_col; cbv beta iota).
  fold (crossover_signal fast slow).
  fold (crossover_frame "FastEMA" "SlowEMA" fast slow meta).
  destruct (getcol "MarketDaily" meta) as [e|daily] eqn:Hd; [done|].
  pose proof (length_getcol _ _ _ Hd) as Ld.
  assert (length (crossover_frame "FastEMA" "SlowEMA" fast slow meta)
          = length meta) as Le by (by apply length_crossover_frame).
  rewrite getcol_setcol_eq; [done|].
  unfold mul. rewrite length_zip_with, length_shift, length_crossover_signal, Le; lia.
Qed.

(** ** What the columns hold *)

Lemma rolling_mean_ok w xs :
  0 ≤ w →
  rolling_mean w xs = inr (roll_mean (Z.to_nat w) xs).
Proof. intros H. unfold rolling_mean. by rewrite (proj2 (Z.ltb_ge w 0)). Qed.

Lemma rolling_mean_lookup w xs ys i :
  rolling_mean w xs = inr ys → (i < length xs)%nat →
  ys !! i = Some (Float (roll_mean_at (Z.to_nat w) (to_float <$> xs) i)).
Proof.
  unfold rolling_mean. destruct (w <? 0); [discriminate|].
  intros [= <-] Hi. unfold roll_mean.
  rewrite list_lookup_fmap, lookup_seq_lt by done. done.
Qed.

Lemma to_float_col_DlyClose df :
  to_float <$> col_DlyClose df = Some <$> (DlyClose <$> df).
Proof. unfold col_DlyClose. by rewrite <- !list_fmap_compose. Qed.

Lemma observations_Some (qs : list Q) : observations (Some <$> qs) = qs.
Proof.
  unfold observations. induction qs as [|q qs IH]; [done|].
  csimpl. by rewrite IH.
Qed.

Lemma roll_mean_at_short w (qs : list Q) i :
  (S i < w)%nat → roll_mean_at w (Some <$> qs) i = NaN.
Proof.
  intros H. unfold roll_mean_at.
  rewrite <- fmap_drop, <- fmap_take, observations_Some.
  rewrite length_take, length_drop.
  destruct (Nat.leb_spec w ((S i - (S i - w)) `min` (length qs - (S i - w))));
    [lia|done].
Qed.

Lemma roll_mean_at_zero (qs : list Q) i : roll_mean_at 0 (Some <$> qs) i = NaN.
Proof.
  unfold roll_mean_at.
  rewrite <- fmap_drop, <- fmap_take, observations_Some.
  rewrite length_take, length_drop.
  replace (S i - (S i - 0))%nat with 0%nat by lia. done.
Qed.

Lemma roll_mean_at_full w (qs : list Q) i :
  (0 < w)%nat → (w ≤ S i)%nat → (i < length qs)%nat →
  roll_mean_at w (Some <$> qs) i
  = Some (Qsum (trailing w i qs) / inject_Z (Z.of_nat w))%Q.
Proof.
  intros Hw Hi Hlen. unfold roll_mean_at, trailing.
  rewrite <- fmap_drop, <- fmap_take, observations_Some.
  replace (S i - (S i - w))%nat with w by lia.
  assert (length (take w (drop (S i - w) qs)) = w) as ->
    by (rewrite length_take, length_drop; lia).
  destruct (Nat.leb_spec w w); [|lia].
  destruct (Nat.ltb_spec 0 w); [|lia]. done.
Qed.

Lemma ewm_loop_defined alpha weighted old_wt (qs : list Q) i :
  (i < length qs)%nat →
  ∃ q, ewm_loop alpha weighted old_wt (Some <$> qs) !! i = Some (Some q).
Proof.
  revert weighted old_wt i.
  induction qs as [|c qs IH]; intros weighted old_wt i Hi; simpl in Hi; [lia|].
  destruct i as [|i].
  - destruct weighted; simpl; eauto.
  - destruct weighted; simpl; apply IH; lia.
Qed.

Lemma ewm_mean_lookup span df ys i :
  ewm_mean span (col_DlyClose df) = inr ys → (i < length df)%nat →
  ∃ q, ys !! i = Some (Float (Some q)).
Proof.
  unfold ewm_mean. destruct (span <? 1); [discriminate|].
  intros [= <-] Hi. rewrite to_float_col_DlyClose.
  destruct (ewm_loop_defined (2 / (inject_Z span + 1))%Q NaN 1%Q
              (DlyClose <$> df) i) as [q Hq]; [by rewrite length_fmap|].
  exists q. by rewrite list_lookup_fmap, Hq.
Qed.

Lemma ewm_mean_ok span xs :
  1 ≤ span → ∃ ys, ewm_mean span xs = inr ys.
Proof.
  intros H. unfold ewm_mean. rewrite (proj2 (Z.ltb_ge span 1)) by done. eauto.
Qed.

Lemma crossover_signal_lookup fast slow i f s :
  fast !! i = Some f → slow !! i = Some s →
  crossover_signal fast slow !! i
  = Some (Int (signal_of (to_float f) (to_float s))).
Proof.
  intros Hf Hs. unfold crossover_signal, np_where, np_where_const, isna_col, gt.
  rewrite lookup_zip_with, !list_lookup_fmap, lookup_zip_with, Hf, Hs. simpl.
  unfold signal_of. by destruct (isna (to_float s)), (fgt (to_float f) (to_float s)).
Qed.

Lemma shift_lookup_0 xs : xs ≠ [] → shift xs !! 0%nat = Some (Float NaN).
Proof. destruct xs; [done|]. by intros _. Qed.

Lemma shift_lookup_S xs i x :
  xs !! i = Some x → (S i < length xs)%nat →
  shift xs !! S i = Some (Float (to_float x)).
Proof.
  intros Hx Hi. unfold shift.
  rewrite lookup_take_lt by done. simpl.
  by rewrite list_lookup_fmap, Hx.
Qed.

Lemma Qgtb_true a b : Qgtb a b = true ↔ (b < a)%Q.
Proof.
  unfold Qgtb. rewrite (Qgt_alt a b).
  destruct (a ?= b)%Q; split; congruence.
Qed.

Lemma Qgtb_false a b : Qgtb a b = false ↔ (a <= b)%Q.
Proof.
  unfold Qgtb. rewrite (Qle_alt a b).
  destruct (a ?= b)%Q; split; congruence.
Qed.

Lemma crossover_columns_impl fastc slowc df (P Q : _ → _ → _ → _ → Prop) :
  (∀ fast slow signal position,
     length fast = length df → length slow = length df →
     length signal = length df → length position = length df →
     P fast slow signal position → Q fast slow signal position) →
  crossover_columns fastc slowc df P → crossover_columns fastc slowc df Q.
Proof.
  intros HPQ (fast & slow & signal & position & ? & ? & ? & ? & ? & ? & ? & ? & ?).
  exists fast, slow, signal, position. repeat split; try done. by apply HPQ.
Qed.

(** What [calculate_sma] returns for windows that [rolling] accepts. *)
Lemma calculate_sma_columns dfi fw sw :
  0 ≤ fw → 0 ≤ sw →
  ∃ dfo, calculate_sma fw sw dfi = (inr dfo, dfo) ∧
    length dfo = length dfi ∧
    col_DlyClose dfo = col_DlyClose dfi ∧ col_Ticker dfo = col_Ticker dfi ∧
    crossover_columns "FastMA" "SlowMA" dfo (λ fast slow signal position,
      rolling_mean fw (col_DlyClose dfi) = inr fast ∧
      rolling_mean sw (col_DlyClose dfi) = inr slow ∧
      signal = crossover_signal fast slow ∧ position = shift signal).
Proof.
  intros Hfw Hsw.
  pose proof (rolling_mean_ok fw (col_DlyClose dfi) Hfw) as Hf.
  pose proof (rolling_mean_ok sw (col_DlyClose dfi) Hsw) as Hs.
  set (fast := roll_mean _ _) in Hf. set (slow := roll_mean _ _) in Hs.
  pose proof (length_rolling_mean _ _ _ Hf) as Lf.
  pose proof (length_rolling_mean _ _ _ Hs) as Ls.
  rewrite length_col_DlyClose in Lf, Ls.
  exists (crossover_frame "FastMA" "SlowMA" fast slow dfi).
  assert (length (crossover_frame "FastMA" "SlowMA" fast slow dfi)
          = length dfi) as Le by (by apply length_crossover_frame).
  split; [by apply calculate_sma_run|].
  split; [done|].
  split; [by apply crossover_frame_DlyClose|].
  split; [by apply crossover_frame_Ticker|].
  exists fast, slow, (crossover_signal fast slow),
    (shift (crossover_signal fast slow)).
  rewrite length_shift, length_crossover_signal, Le by congruence.
  rewrite crossover_frame_fast, crossover_frame_slow, crossover_frame_signal,
    crossover_frame_position by done.
  done.
Qed.

(** What the exponential cell leaves in [ema], whether or not [meta] has
    the column [MarketDaily] that its last statements read. *)
Lemma ema_strategy_columns meta fw sw :
  1 ≤ fw → 1 ≤ sw →
  length (ema_strategy fw sw meta).2 = length meta ∧
  crossover_columns "FastEMA" "SlowEMA" (ema_strategy fw sw meta).2
    (λ fast slow signal position,
      ewm_mean fw (col_DlyClose meta) = inr fast ∧
      ewm_mean sw (col_DlyClose meta) = inr slow ∧
      signal = crossover_signal fast slow ∧ position = shift signal).
Proof.
  intros Hfw Hsw.
  destruct (ewm_mean_ok fw (col_DlyClose meta) Hfw) as [fast Hf].
  destruct (ewm_mean_ok sw (col_DlyClose meta) Hsw) as [slow Hs].
  pose proof (length_ewm_mean _ _ _ Hf) as Lf.
  pose proof (length_ewm_mean _ _ _ Hs) as Ls.
  rewrite length_col_DlyClose in Lf, Ls.
  rewrite (ema_strategy_run fw sw meta fast slow Hf Hs). cbv zeta.
  set (ema := crossover_frame "FastEMA" "SlowEMA" fast slow meta).
  assert (length ema = length meta) as Le by (by apply length_crossover_frame).
  assert (length (crossover_signal fast slow) = length meta) as Lsig
    by (rewrite length_crossover_signal; congruence).
  destruct (getcol "MarketDaily" meta) as [e|daily] eqn:Hd; simpl.
  - split; [done|].
    exists fast, slow, (crossover_signal fast slow),
      (shift (crossover_signal fast slow)).
    rewrite length_shift, Lsig, Le. subst ema.
    rewrite crossover_frame_fast, crossover_frame_slow, crossover_frame_signal,
      crossover_frame_position by done.
    done.
  - pose proof (length_getcol _ _ _ Hd) as Ld.
    assert (length (mul (shift (crossover_signal fast slow)) daily)
            = length meta) as Lm
      by (unfold mul; rewrite length_zip_with, length_shift; lia).
    split; [solve_len|].
    exists fast, slow, (crossover_signal fast slow),
      (shift (crossover_signal fast slow)).
    rewrite !length_setcol, length_shift, Lsig, Le by solve_len.
    rewrite !getcol_setcol_ne by first [done | solve_len]. subst ema.
    rewrite crossover_frame_fast, crossover_frame_slow, crossover_frame_signal,
      crossover_frame_position by done.
    done.
Qed.

(** Every value of the close column, of a rolling mean and of an
    exponential mean is a float cell. *)
Lemma rolling_mean_Float w xs ys i :
  rolling_mean w xs = inr ys → (i < length xs)%nat →
  ∃ f, ys !! i = Some (Float f).
Proof. intros H Hi. rewrite (rolling_mean_lookup w xs ys i H Hi). eauto. Qed.

(** ** The rule of the signal *)

Lemma signal_of_rule (f s : float) :
  let z := signal_of f s in
  (z = -1 ∨ z = 0 ∨ z = 1) ∧
  (s = NaN → z = 0) ∧
  (∀ a b, f = Some a → s = Some b → (b < a)%Q → z = 1) ∧
  (∀ b, s = Some b → f = NaN → z = -1) ∧
  (∀ a b, f = Some a → s = Some b → (a <= b)%Q → z = -1).
Proof.
  unfold signal_of. destruct s as [b|], f as [a|]; simpl.
  - destruct (Qgtb a b) eqn:E.
    + apply Qgtb_true in E. repeat split; auto; try discriminate.
      intros a' b' [= <-] [= <-] Hle. exfalso. by apply (Qlt_not_le b a).
    + apply Qgtb_false in E. repeat split; auto; try discriminate.
      intros a' b' [= <-] [= <-] Hlt. exfalso. by apply (Qlt_not_le b a).
  - repeat split; auto; discriminate.
  - repeat split; auto; discriminate.
  - repeat split; auto; discriminate.
Qed.

Lemma crossover_signal_rule fast slow :
  length slow = length fast →
  (∀ i : nat, (i < length fast)%nat → ∃ f, fast !! i = Some (Float f)) →
  (∀ i : nat, (i < length fast)%nat → ∃ s, slow !! i = Some (Float s)) →
  signal_rule fast slow (crossover_signal fast slow).
Proof.
  intros Hlen Hfast Hslow i Hi.
  rewrite length_crossover_signal in Hi by done.
  destruct (Hfast i Hi) as [f Hf]. destruct (Hslow i Hi) as [s Hs].
  exists f, s, (signal_of f s).
  rewrite (crossover_signal_lookup fast slow i _ _ Hf Hs). simpl.
  repeat split; try done; apply (signal_of_rule f s).
Qed.

(** C2. At every index the signal is +1 if the fast average exceeds the
    slow one and -1 otherwise (a tie gives -1), except that it is 0 where
    the slow average is missing; so it lies in {-1, 0, +1}.  This holds
    for the frame [calculate_sma] returns and for the frame the
    exponential cell leaves. *)
Theorem signal_follows_crossover_rule (dfi : DataFrame) (fw sw : Z) :
  1 ≤ fw → 1 ≤ sw →
  (∃ dfo, calculate_sma fw sw dfi = (inr dfo, dfo) ∧
     length dfo = length dfi ∧
     crossover_columns "FastMA" "SlowMA" dfo
       (λ fast slow signal _, signal_rule fast slow signal)) ∧
  crossover_columns "FastEMA" "SlowEMA" (ema_strategy fw sw dfi).2
    (λ fast slow signal _, signal_rule fast slow signal).
Proof.
  intros Hfw Hsw. split.
  - destruct (calculate_sma_columns dfi fw sw) as (dfo & Hrun & Hlen & _ & _ & Hcols);
      [lia..|].
    exists dfo. repeat split; try done.
    revert Hcols. apply crossover_columns_impl.
    intros fast slow signal position Lf Ls _ _ (Hf & Hs & -> & _).
    apply crossover_signal_rule; [congruence|..]; intros i Hi.
    + apply (rolling_mean_Float _ _ _ _ Hf).
      rewrite length_col_DlyClose. congruence.
    + apply (rolling_mean_Float _ _ _ _ Hs).
      rewrite length_col_DlyClose. congruence.
  - destruct (ema_strategy_columns dfi fw sw Hfw Hsw) as [Hlen Hcols].
    revert Hcols. apply crossover_columns_impl.
    intros fast slow signal position Lf Ls _ _ (Hf & Hs & -> & _).
    apply crossover_signal_rule; [congruence|..]; intros i Hi.
    + destruct (ewm_mean_lookup _ _ _ i Hf) as [q Hq]; [congruence|]. eauto.
    + destruct (ewm_mean_lookup _ _ _ i Hs) as [q Hq]; [congruence|]. eauto.
Qed.

Lemma signal_follows_crossover_rule_witness :
  1 ≤ 2 ∧ 1 ≤ 3 ∧
  (∃ dfo, calculate_sma 2 3 spec_example = (inr dfo, dfo) ∧
     length dfo = length spec_example ∧
     crossover_columns "FastMA" "SlowMA" dfo
       (λ fast slow signal _, signal_rule fast slow signal)) ∧
  crossover_columns "FastEMA" "SlowEMA" (ema_strategy 2 3 spec_example).2
    (λ fast slow signal _, signal_rule fast slow signal).
Proof.
  split; [lia|]. split; [lia|].
  apply signal_follows_crossover_rule; lia.
Defined.

(** ** The position is the signal of the day before *)


(** ** Where the slow average is defined *)

Lemma rolling_mean_defined_from window df avg :
  1 ≤ window → rolling_mean window (col_DlyClose df) = inr avg →
  sma_defined_from window (DlyClose <$> df) avg.
Proof.
  intros Hw Havg i Hi. rewrite length_fmap in Hi.
  rewrite (rolling_mean_lookup _ _ _ i Havg) by (by rewrite length_col_DlyClose).
  rewrite to_float_col_DlyClose. split; intros Hlt.
  - rewrite roll_mean_at_short; [done|lia].
  - rewrite roll_mean_at_full; [|lia|lia|by rewrite length_fmap].
    by rewrite Z2Nat.id by lia.
Qed.

(** C6. With the simple average, the slow average is missing at every
    index below [slow_window - 1] and defined (the mean of the trailing
    window) from [slow_window - 1] on; with the exponential average it is
    defined at every index. *)
Theorem slow_average_defined (dfi : DataFrame) (fw sw : Z) :
  1 ≤ fw → 1 ≤ sw →
  (∃ dfo, calculate_sma fw sw dfi = (inr dfo, dfo) ∧
     length dfo = length dfi ∧
     crossover_columns "FastMA" "SlowMA" dfo
       (λ _ slow _ _, sma_defined_from sw (DlyClose <$> dfi) slow)) ∧
  crossover_columns "FastEMA" "SlowEMA" (ema_strategy fw sw dfi).2
    (λ _ slow _ _, defined_everywhere slow).
Proof.
  intros Hfw Hsw. split.
  - destruct (calculate_sma_columns dfi fw sw) as (dfo & Hrun & Hlen & _ & _ & Hcols);
      [lia..|].
    exists dfo. repeat split; try done.
    revert Hcols. apply crossover_columns_impl.
    intros fast slow signal position _ _ _ _ (_ & Hs & _).
    by apply rolling_mean_defined_from.
  - destruct (ema_strategy_columns dfi fw sw Hfw Hsw) as [Hlen Hcols].
    revert Hcols. apply crossover_columns_impl.
    intros fast slow signal position _ Ls _ _ (_ & Hs & _) i Hi.
    apply (ewm_mean_lookup _ _ _ i Hs). congruence.
Qed.

Lemma slow_average_defined_witness :
  1 ≤ 2 ∧ 1 ≤ 3 ∧
  (∃ dfo, calculate_sma 2 3 spec_example = (inr dfo, dfo) ∧
     length dfo = length spec_example ∧
     crossover_columns "FastMA" "SlowMA" dfo
       (λ _ slow _ _, sma_defined_from 3 (DlyClose <$> spec_example) slow)) ∧
  crossover_columns "FastEMA" "SlowEMA" (ema_strategy 2 3 spec_example).2
    (λ _ slow _ _, defined_everywhere slow).
Proof.
  split; [lia|]. split; [lia|].
  apply slow_average_defined; lia.
Defined.

(** ** The exponential signal is never flat *)

Lemma signal_of_defined f q : signal_of f (Some q) = 1 ∨ signal_of f (Some q) = -1.
Proof. unfold signal_of. simpl. destruct (fgt f (Some q)); auto. Qed.

(** C9. In the exponential cell the slow average is never missing, so the
    statement that zeroes the signal changes nothing: the signal is +1 or
    -1 at every index, index 0 included, and the position is +1 or -1 at
    every index from 1 on. *)
Theorem ema_signal_never_zero (meta : DataFrame) (fw sw : Z) :
  1 ≤ fw → 1 ≤ sw →
  crossover_columns "FastEMA" "SlowEMA" (ema_strategy fw sw meta).2
    (λ fast slow signal position,
       signal = np_where_const (gt fast slow) (Int 1) (Int (-1)) ∧
       never_flat signal position).
Proof.
  intros Hfw Hsw.
  destruct (ema_strategy_columns meta fw sw Hfw Hsw) as [Hlen Hcols].
  revert Hcols. apply crossover_columns_impl.
  intros fast slow signal position Lf Ls _ _ (Hf & Hs & -> & ->).
  assert (∀ i : nat, (i < length meta)%nat →
            ∃ f q, fast !! i = Some f ∧ slow !! i = Some (Float (Some q)))
    as Hdef.
  { intros i Hi. destruct (lookup_lt_is_Some_2 fast i) as [f Hfi]; [lia|].
    destruct (ewm_mean_lookup _ _ _ i Hs Hi) as [q Hq]. eauto. }
  assert (∀ i : nat, (i < length meta)%nat →
            ∃ z, crossover_signal fast slow !! i = Some (Int z)
                 ∧ (z = 1 ∨ z = -1)) as Hsig.
  { intros i Hi. destruct (Hdef i Hi) as (f & q & Hfi & Hsi).
    rewrite (crossover_signal_lookup fast slow i _ _ Hfi Hsi).
    eexists. split; [done|]. apply signal_of_defined. }
  assert (length (crossover_signal fast slow) = length meta) as Lsig
    by (rewrite length_crossover_signal; congruence).
  split; [|split].
  - apply list_eq. intros i.
    destruct (decide (i < length meta)%nat) as [Hi|Hi].
    + destruct (Hdef i Hi) as (f & q & Hfi & Hsi).
      rewrite (crossover_signal_lookup fast slow i _ _ Hfi Hsi).
      unfold np_where_const, gt.
      rewrite list_lookup_fmap, lookup_zip_with, Hfi, Hsi. simpl.
      unfold signal_of. simpl. by destruct (fgt (to_float f) (Some q)).
    + rewrite !lookup_ge_None_2; [done| |lia].
      unfold np_where_const, gt. rewrite length_map, length_zip_with. lia.
  - intros i Hi. apply Hsig. lia.
  - intros i Hi. rewrite length_shift in Hi.
    destruct (Hsig i) as (z & Hz & Hz'); [lia|].
    exists z. split; [|done].
    by rewrite (shift_lookup_S _ _ _ Hz Hi).
Qed.

Lemma ema_signal_never_zero_witness :
  1 ≤ 2 ∧ 1 ≤ 3 ∧
  crossover_columns "FastEMA" "SlowEMA" (ema_strategy 2 3 spec_example).2
    (λ fast slow signal position,
       signal = np_where_const (gt fast slow) (Int 1) (Int (-1)) ∧
       never_flat signal position).
Proof.
  split; [lia|]. split; [lia|].
  apply ema_signal_never_zero; lia.
Defined.

(** ** Failures of [calculate_sma] *)

Lemma calculate_sma_fast_rejected fw sw dfi :
  fw < 0 → calculate_sma fw sw dfi = (inl ValueError, dfi).
Proof.
  intros H. unfold calculate_sma. run_step.
  unfold rolling_mean. by rewrite (proj2 (Z.ltb_lt fw 0)).
Qed.

Lemma calculate_sma_slow_rejected fw sw dfi :
  0 ≤ fw → sw < 0 →
  calculate_sma fw sw dfi
  = (inl ValueError,
     setcol "FastMA" (roll_mean (Z.to_nat fw) (col_DlyClose dfi)) dfi).
Proof.
  intros Hfw Hsw. unfold calculate_sma. run_step.
  rewrite (rolling_mean_ok fw) by done. cbv beta iota.
  unfold rolling_mean. by rewrite (proj2 (Z.ltb_lt sw 0)).
Qed.

(** ** What [calculate_sma] does to the frame it is given *)

Lemma same_outside_refl cols df : same_outside cols df df.
Proof. apply Forall_Forall2_diag, Forall_forall. by intros. Qed.

Lemma same_outside_trans cols df1 df2 df3 :
  same_outside cols df1 df2 → same_outside cols df2 df3 →
  same_outside cols df1 df3.
Proof.
  unfold same_outside. intros H12. revert df3.
  induction H12 as [|a b l1 l2 (?&?&?&Hab) _ IH]; intros df3 H23;
    inversion H23 as [|? c ? l3 (?&?&?&Hbc) H']; subst; constructor.
  - repeat split; try congruence. intros k Hk. by rewrite Hbc, Hab.
  - by apply IH.
Qed.

Lemma same_outside_setcol cols c vs df :
  c ∈ cols → length vs = length df → same_outside cols df (setcol c vs df).
Proof.
  intros Hc. revert vs. induction df as [|r df IH]; intros [|v vs] Hlen;
    try discriminate; [constructor|].
  constructor; [|apply IH; simpl in Hlen; lia].
  simpl. repeat split. intros k Hk.
  apply lookup_insert_ne. by intros ->.
Qed.

Lemma same_outside_crossover_frame fast slow df :
  length fast = length df → length slow = length df →
  same_outside ["FastMA"; "SlowMA"; "Signal"; "Position"] df
    (crossover_frame "FastMA" "SlowMA" fast slow df).
Proof.
  intros Lf Ls. unfold crossover_frame.
  repeat (eapply same_outside_trans;
          [|apply same_outside_setcol;
            [repeat first [apply list_elem_of_here | apply list_elem_of_further]
            | solve_len]]).
  apply same_outside_refl.
Qed.

(** ** The panel: groups and their concatenation *)

Lemma NoDup_group_keys df : NoDup (group_keys df).
Proof.
  unfold group_keys. rewrite merge_sort_Permutation. apply NoDup_remove_dups.
Qed.

Lemma elem_of_group_keys df k : k ∈ group_keys df ↔ k ∈ col_Ticker df.
Proof.
  unfold group_keys. rewrite merge_sort_Permutation. apply elem_of_remove_dups.
Qed.

Lemma rows_of_all name df :
  Forall (λ r, Ticker r = name) df → rows_of name df = df.
Proof.
  unfold rows_of. induction 1 as [|r df Hr _ IH]; [done|].
  rewrite filter_cons_True by done. by rewrite IH.
Qed.

Lemma rows_of_none name df :
  Forall (λ r, Ticker r ≠ name) df → rows_of name df = [].
Proof.
  unfold rows_of. induction 1 as [|r df Hr _ IH]; [done|].
  by rewrite filter_cons_False.
Qed.

Lemma Forall_rows_of name df : Forall (λ r, Ticker r = name) (rows_of name df).
Proof. apply Forall_forall. intros r Hr. by apply list_elem_of_filter in Hr as [? _]. Qed.

Lemma Forall_Ticker_col (P : string → Prop) df :
  Forall (λ r, P (Ticker r)) df ↔ Forall P (col_Ticker df).
Proof. unfold col_Ticker. by rewrite Forall_fmap. Qed.

(** The rows of one ticker in a concatenation of blocks, one block per
    key, each block made of rows of its key. *)
Lemma rows_of_concat_blocks (block : string → DataFrame) keys name :
  (∀ k, Forall (λ r, Ticker r = k) (block k)) →
  NoDup keys → name ∈ keys →
  rows_of name (concat (map block keys)) = block name.
Proof.
  intros Hblock Hnd Hin.
  assert (∀ ks, name ∉ ks → rows_of name (concat (map block ks)) = []) as Hout.
  { induction ks as [|k ks IH]; intros Hk; [done|].
    apply not_elem_of_cons in Hk as [Hne Hk]. simpl.
    unfold rows_of in *. rewrite filter_app, (IH Hk), app_nil_r.
    apply rows_of_none. eapply Forall_impl; [apply Hblock|].
    simpl. congruence. }
  induction Hnd as [|k ks Hk Hnd IH]; [by apply elem_of_nil in Hin|].
  simpl. unfold rows_of. rewrite filter_app.
  apply elem_of_cons in Hin as [->|Hin].
  - fold (rows_of k (block k)). fold (rows_of k (concat (map block ks))).
    rewrite (Hout ks Hk), app_nil_r. apply rows_of_all, Hblock.
  - fold (rows_of name (block k)). fold (rows_of name (concat (map block ks))).
    rewrite (IH Hin). rewrite rows_of_none; [done|].
    eapply Forall_impl; [apply Hblock|]. simpl. intros r -> ->. done.
Qed.

Lemma length_rows_of_cons name r df :
  length (rows_of name (r :: df))
  = ((if decide (Ticker r = name) then 1 else 0) + length (rows_of name df))%nat.
Proof.
  unfold rows_of. destruct (decide (Ticker r = name)).
  - by rewrite filter_cons_True.
  - by rewrite filter_cons_False.
Qed.

Lemma count_key name (keys : list string) :
  NoDup keys → name ∈ keys →
  list_sum (map (λ k, if decide (name = k) then 1 else 0)%nat keys) = 1%nat.
Proof.
  induction 1 as [|k ks Hk Hnd IH]; intros Hin; [by apply elem_of_nil in Hin|].
  simpl. destruct (decide (name = k)) as [->|Hne].
  - assert (list_sum (map (λ k', if decide (k = k') then 1 else 0)%nat ks) = 0%nat)
      as ->; [|done].
    clear IH Hnd Hin. induction ks as [|k' ks IH]; [done|].
    apply not_elem_of_cons in Hk as [Hne Hk]. simpl.
    rewrite decide_False by done. by rewrite IH.
  - apply elem_of_cons in Hin as [?|Hin]; [done|]. by rewrite IH.
Qed.

(** Every row of the panel is in exactly one group. *)
Lemma length_groups df keys :
  NoDup keys → Forall (λ r, Ticker r ∈ keys) df →
  list_sum (map (λ k, length (rows_of k df)) keys) = length df.
Proof.
  intros Hnd. induction 1 as [|r df Hr _ IH]; simpl.
  - induction keys as [|k ks IHk]; [done|]. simpl.
    apply NoDup_cons in Hnd as [_ Hnd]. by rewrite IHk.
  - transitivity
      (list_sum (map (λ k, if decide (Ticker r = k) then 1 else 0)%nat keys)
       + list_sum (map (λ k, length (rows_of k df)) keys))%nat.
    + clear. induction keys as [|k ks IHk]; [done|]. simpl.
      rewrite length_rows_of_cons, IHk. lia.
    + rewrite IH, (count_key (Ticker r) keys Hnd Hr). done.
Qed.

Lemma Forall_Ticker_group_keys df : Forall (λ r, Ticker r ∈ group_keys df) df.
Proof.
  apply Forall_forall. intros r Hr. apply elem_of_group_keys.
  unfold col_Ticker. by apply list_elem_of_fmap_2.
Qed.

Lemma calculate_sma_sma_frame fw sw dfi :
  0 ≤ fw → 0 ≤ sw →
  calculate_sma fw sw dfi = (inr (sma_frame fw sw dfi), sma_frame fw sw dfi).
Proof.
  intros Hfw Hsw. unfold sma_frame.
  destruct (calculate_sma_columns dfi fw sw Hfw Hsw) as (dfo & -> & _). done.
Qed.

Lemma length_sma_frame fw sw dfi :
  0 ≤ fw → 0 ≤ sw → length (sma_frame fw sw dfi) = length dfi.
Proof.
  intros Hfw Hsw. unfold sma_frame.
  destruct (calculate_sma_columns dfi fw sw Hfw Hsw) as (dfo & -> & ? & _). done.
Qed.

Lemma col_Ticker_sma_frame fw sw dfi :
  0 ≤ fw → 0 ≤ sw → col_Ticker (sma_frame fw sw dfi) = col_Ticker dfi.
Proof.
  intros Hfw Hsw. unfold sma_frame.
  destruct (calculate_sma_columns dfi fw sw Hfw Hsw)
    as (dfo & -> & _ & _ & ? & _). done.
Qed.

Lemma col_DlyClose_sma_frame fw sw dfi :
  0 ≤ fw → 0 ≤ sw → col_DlyClose (sma_frame fw sw dfi) = col_DlyClose dfi.
Proof.
  intros Hfw Hsw. unfold sma_frame.
  destruct (calculate_sma_columns dfi fw sw Hfw Hsw)
    as (dfo & -> & _ & ? & _). done.
Qed.

Lemma apply_groups_calculate_sma fw sw grouped :
  0 ≤ fw → 0 ≤ sw →
  apply_groups (calculate_sma fw sw) grouped
  = inr (map (λ g, sma_frame fw sw g.2) grouped).
Proof.
  intros Hfw Hsw. induction grouped as [|[name group] rest IH]; [done|].
  simpl. rewrite calculate_sma_sma_frame, IH by done. done.
Qed.

Lemma panel_sma_run fw sw df :
  0 ≤ fw → 0 ≤ sw → df ≠ [] →
  panel_sma fw sw df = inr (panel_frame fw sw df).
Proof.
  intros Hfw Hsw Hne. unfold panel_sma, groupby.
  rewrite apply_groups_calculate_sma by done.
  rewrite map_map. simpl. unfold panel_frame.
  destruct (group_keys df) as [|k ks] eqn:Hk; [|done].
  destruct df as [|r df]; [done|].
  assert (Ticker r ∈ group_keys (r :: df)) as Hin
    by (apply elem_of_group_keys; apply list_elem_of_here).
  rewrite Hk in Hin. by apply elem_of_nil in Hin.
Qed.

Lemma length_panel_frame fw sw df :
  0 ≤ fw → 0 ≤ sw → length (panel_frame fw sw df) = length df.
Proof.
  intros Hfw Hsw. unfold panel_frame.
  rewrite length_concat, map_map.
  rewrite <- (length_groups df (group_keys df));
    [|apply NoDup_group_keys|apply Forall_Ticker_group_keys].
  f_equal. apply map_ext. intros k. by apply length_sma_frame.
Qed.

Lemma rows_of_panel_frame fw sw df name :
  0 ≤ fw → 0 ≤ sw → name ∈ col_Ticker df →
  rows_of name (panel_frame fw sw df) = sma_frame fw sw (rows_of name df).
Proof.
  intros Hfw Hsw Hin. unfold panel_frame.
  apply (rows_of_concat_blocks (λ k, sma_frame fw sw (rows_of k df))).
  - intros k. apply (Forall_Ticker_col (λ t, t = k)).
    rewrite col_Ticker_sma_frame by done.
    apply (Forall_Ticker_col (λ t, t = k)), Forall_rows_of.
  - apply NoDup_group_keys.
  - by apply elem_of_group_keys.
Qed.

(** C5. For a non-empty series and positive windows, the output has as
    many rows as the input: for the frame [calculate_sma] returns for one
    asset, and for the panel after the group-wise application and the
    concatenation. *)
Theorem output_has_rows_of_input (df : DataFrame) (fw sw : Z) :
  df ≠ [] → 1 ≤ fw → 1 ≤ sw →
  (∃ dfo, calculate_sma fw sw df = (inr dfo, dfo) ∧
          length dfo = length df) ∧
  (∃ out, panel_sma fw sw df = inr out ∧ length out = length df).
Proof.
  intros Hne Hfw Hsw. split.
  - exists (sma_frame fw sw df).
    split; [apply calculate_sma_sma_frame; lia|apply length_sma_frame; lia].
  - exists (panel_frame fw sw df).
    split; [apply panel_sma_run; [lia|lia|done]|apply length_panel_frame; lia].
Qed.

(** ** One asset inside the panel *)

Lemma shift_shift_from xs : shift xs = shift_from NaN xs.
Proof.
  unfold shift. generalize NaN.
  induction xs as [|x xs IH]; intros p; [done|].
  simpl. f_equal. apply IH.
Qed.

Lemma rows_of_setcol name c vs df :
  length vs = length df →
  rows_of name (setcol c vs df)
  = setcol c (select name (col_Ticker df) vs) (rows_of name df).
Proof.
  revert vs. induction df as [|r df IH]; intros [|v vs] Hlen;
    try discriminate; [done|].
  simpl in *. unfold rows_of in *.
  destruct (decide (Ticker r = name)) as [Hr|Hr].
  - rewrite !filter_cons_True by done. simpl. f_equal. apply IH. lia.
  - rewrite !filter_cons_False by done. apply IH. lia.
Qed.

Lemma getcol_rows_of name c df vs :
  getcol c df = inr vs →
  getcol c (rows_of name df) = inr (select name (col_Ticker df) vs).
Proof.
  revert vs. induction df as [|r df IH]; intros vs; simpl.
  - by intros [= <-].
  - destruct (extra r !! c) as [v|] eqn:Hv; [|discriminate].
    destruct (getcol c df) as [e|ws]; [discriminate|].
    intros [= <-]. specialize (IH ws eq_refl). unfold rows_of in *.
    destruct (decide (Ticker r = name)) as [Hr|Hr].
    + rewrite filter_cons_True by done. simpl. by rewrite Hv, IH.
    + by rewrite filter_cons_False.
Qed.

Lemma col_DlyClose_rows_of name df :
  col_DlyClose (rows_of name df)
  = select name (col_Ticker df) (col_DlyClose df).
Proof.
  induction df as [|r df IH]; [done|]. simpl. unfold rows_of in *.
  destruct (decide (Ticker r = name)) as [Hr|Hr].
  - rewrite filter_cons_True by done. simpl. by rewrite IH.
  - by rewrite filter_cons_False.
Qed.

Lemma length_select {A} name keys (xs : list A) :
  length xs = length keys →
  length (select name keys xs) = length (select name keys keys).
Proof.
  revert xs. induction keys as [|k keys IH]; intros [|x xs] Hlen;
    try discriminate; [done|].
  simpl in *. destruct (decide (k = name)); simpl; rewrite IH; lia.
Qed.

Lemma length_rows_of_select name df :
  length (rows_of name df)
  = length (select name (col_Ticker df) (col_Ticker df)).
Proof.
  induction df as [|r df IH]; [done|]. simpl. unfold rows_of in *.
  destruct (decide (Ticker r = name)) as [Hr|Hr].
  - rewrite filter_cons_True by done. simpl. by rewrite IH.
  - by rewrite filter_cons_False.
Qed.

Lemma select_zip_with {A B C} (f : A → B → C) name keys xs ys :
  length xs = length keys → length ys = length keys →
  select name keys (zip_with f xs ys)
  = zip_with f (select name keys xs) (select name keys ys).
Proof.
  revert xs ys. induction keys as [|k keys IH]; intros [|x xs] [|y ys] Hx Hy;
    try discriminate; [done|].
  simpl in *. destruct (decide (k = name)); simpl; rewrite IH; auto with lia.
Qed.

Lemma select_map {A B} (f : A → B) name keys xs :
  select name keys (map f xs) = map f (select name keys xs).
Proof.
  revert xs. induction keys as [|k keys IH]; intros [|x xs]; try done.
  simpl. destruct (decide (k = name)); simpl; by rewrite IH.
Qed.

Lemma select_all {A} name keys (xs : list A) :
  Forall (λ k, k = name) keys → length xs = length keys →
  select name keys xs = xs.
Proof.
  intros Hall. revert xs. induction Hall as [|k keys Hk _ IH]; intros [|x xs] Hlen;
    try discriminate; [done|].
  simpl in *. rewrite decide_True by done. f_equal. apply IH. lia.
Qed.

Lemma select_group_shift_from name last keys xs :
  length xs = length keys →
  select name keys (group_shift_from last keys xs)
  = shift_from (default NaN (to_float <$> last !! name)) (select name keys xs).
Proof.
  revert last xs. induction keys as [|k keys IH]; intros last [|x xs] Hlen;
    try discriminate; [done|].
  simpl in *. destruct (decide (k = name)) as [->|Hne]; simpl.
  - f_equal. rewrite IH by lia. by rewrite lookup_insert_eq.
  - rewrite IH by lia. by rewrite lookup_insert_ne.
Qed.

Lemma select_group_cumprod_from name accum keys xs :
  length xs = length keys →
  select name keys (group_cumprod_from accum keys xs)
  = cumprod_from (default 1%Q (accum !! name)) (select name keys xs).
Proof.
  revert accum xs. induction keys as [|k keys IH]; intros accum [|x xs] Hlen;
    try discriminate; [done|].
  simpl in *.
  destruct (to_float x) as [v|] eqn:Hx; simpl;
    destruct (decide (k = name)) as [->|Hne]; simpl; rewrite ?Hx;
    rewrite IH by lia.
  - by rewrite lookup_insert_eq.
  - by rewrite lookup_insert_ne.
  - done.
  - done.
Qed.

Lemma length_group_shift_from last keys xs :
  length xs = length keys →
  length (group_shift_from last keys xs) = length keys.
Proof.
  revert last xs. induction keys as [|k keys IH]; intros last [|x xs] Hlen;
    try discriminate; [done|].
  simpl in *. f_equal. apply IH. lia.
Qed.

Lemma length_group_cumprod_from accum keys xs :
  length xs = length keys →
  length (group_cumprod_from accum keys xs) = length keys.
Proof.
  revert accum xs. induction keys as [|k keys IH]; intros accum [|x xs] Hlen;
    try discriminate; [done|].
  simpl in *. destruct (to_float x); simpl; f_equal; apply IH; lia.
Qed.

Lemma length_group_pct_change keys xs :
  length xs = length keys → length (group_pct_change keys xs) = length keys.
Proof.
  intros H. unfold group_pct_change, group_shift.
  rewrite length_zip_with, length_group_shift_from; lia.
Qed.

(** No leakage: per ticker, the group-wise operations are the plain ones
    on the values of that ticker. *)
Lemma select_group_pct_change name keys xs :
  length xs = length keys →
  select name keys (group_pct_change keys xs)
  = pct_change (select name keys xs).
Proof.
  intros Hlen. unfold group_pct_change, pct_change, group_shift.
  rewrite select_zip_with by (by rewrite ?length_group_shift_from).
  rewrite select_group_shift_from by done.
  by rewrite lookup_empty, shift_shift_from.
Qed.

Lemma select_group_cumprod name keys xs :
  length xs = length keys →
  select name keys (group_cumprod keys xs) = cumprod (select name keys xs).
Proof.
  intros Hlen. unfold group_cumprod, cumprod.
  rewrite select_group_cumprod_from by done. by rewrite lookup_empty.
Qed.

(** ** The returns of the panel and of one asset *)

Lemma panel_returns_run df position :
  getcol "Position" df = inr position →
  panel_returns df
  = (inr (),
     let daily := group_pct_change (col_Ticker df) (col_DlyClose df) in
     let sdaily := mul position daily in
     returns_frame daily sdaily
       (group_cumprod (col_Ticker df) (one_plus daily))
       (group_cumprod (col_Ticker df) (one_plus sdaily)) df).
Proof.
  intros Hp. pose proof (length_getcol _ _ _ Hp) as Lp.
  assert (length (group_pct_change (col_Ticker df) (col_DlyClose df))
          = length df) as Ld
    by (rewrite length_group_pct_change; solve_len).
  unfold panel_returns. run_step. cbv zeta.
  rewrite getcol_setcol_ne, Hp by done. cbv beta iota.
  rewrite getcol_setcol_eq by done. cbv beta iota.
  set (daily := group_pct_change (col_Ticker df) (col_DlyClose df)) in *.
  assert (length (mul position daily) = length df) as Ls
    by (unfold mul; rewrite length_zip_with; lia).
  rewrite getcol_setcol_ne, getcol_setcol_eq by first [done | solve_len].
  cbv beta iota.
  rewrite !col_Ticker_setcol by first [done | solve_len].
  assert (length (group_cumprod (col_Ticker df) (one_plus daily)) = length df)
    as Lm by (unfold group_cumprod; rewrite length_group_cumprod_from; solve_len).
  rewrite getcol_setcol_ne, getcol_setcol_eq by first [done | solve_len].
  cbv beta iota.
  rewrite !col_Ticker_setcol by first [done | solve_len].
  done.
Qed.

Lemma single_returns_run df position :
  getcol "Position" df = inr position →
  single_returns df
  = (inr (),
     let daily := pct_change (col_DlyClose df) in
     let sdaily := mul position daily in
     returns_frame daily sdaily (cumprod (one_plus daily))
       (cumprod (one_plus sdaily)) df).
Proof.
  intros Hp. pose proof (length_getcol _ _ _ Hp) as Lp.
  unfold single_returns. run_step. cbv zeta.
  rewrite getcol_setcol_ne, Hp by first [done | solve_len]. cbv beta iota.
  rewrite getcol_setcol_eq by solve_len. cbv beta iota.
  rewrite getcol_setcol_ne, getcol_setcol_eq by first [done | solve_len].
  cbv beta iota.
  rewrite getcol_setcol_ne, getcol_setcol_eq by first [done | solve_len].
  done.
Qed.

Lemma rows_of_returns_frame name daily sdaily market strategy df :
  length daily = length df → length sdaily = length df →
  length market = length df → length strategy = length df →
  rows_of name (returns_frame daily sdaily market strategy df)
  = returns_frame (select name (col_Ticker df) daily)
      (select name (col_Ticker df) sdaily)
      (select name (col_Ticker df) market)
      (select name (col_Ticker df) strategy) (rows_of name df).
Proof.
  intros Ld Ls Lm Lt. unfold returns_frame.
  rewrite !rows_of_setcol by first [done | solve_len].
  rewrite !col_Ticker_setcol by first [done | solve_len].
  done.
Qed.

(** Restricted to one ticker, the returns cell of the panel leaves what
    the single-asset cell leaves on the rows of that ticker. *)
Lemma rows_of_panel_returns name df position :
  getcol "Position" df = inr position →
  rows_of name (panel_returns df).2 = (single_returns (rows_of name df)).2.
Proof.
  intros Hp. pose proof (length_getcol _ _ _ Hp) as Lp.
  rewrite (panel_returns_run df position Hp).
  rewrite (single_returns_run _ _ (getcol_rows_of name _ _ _ Hp)).
  cbv zeta. simpl.
  set (keys := col_Ticker df).
  assert (length keys = length df) as Lk by apply length_col_Ticker.
  assert (length (col_DlyClose df) = length keys) as Lc
    by (rewrite length_col_DlyClose; lia).
  set (daily := group_pct_change keys (col_DlyClose df)).
  assert (length daily = length keys) as Ld
    by (by apply length_group_pct_change).
  assert (length (mul position daily) = length keys) as Ls
    by (unfold mul; rewrite length_zip_with; lia).
  rewrite rows_of_returns_frame;
    [|lia|lia
     |unfold group_cumprod; rewrite length_group_cumprod_from; solve_len
     |unfold group_cumprod; rewrite length_group_cumprod_from; solve_len].
  fold keys.
  rewrite !select_group_cumprod by solve_len.
  unfold one_plus. rewrite !select_map.
  unfold mul at 1 2. rewrite !select_zip_with by lia.
  subst daily. rewrite !select_group_pct_change by done.
  by rewrite col_DlyClose_rows_of.
Qed.

Lemma getcol_app c df1 df2 vs1 vs2 :
  getcol c df1 = inr vs1 → getcol c df2 = inr vs2 →
  getcol c (df1 ++ df2) = inr (vs1 ++ vs2).
Proof.
  revert vs1. induction df1 as [|r df1 IH]; intros vs1; simpl.
  - by intros [= <-] ->.
  - destruct (extra r !! c); [|discriminate].
    destruct (getcol c df1) as [e|ws]; [discriminate|].
    intros [= <-] H2. by rewrite (IH ws eq_refl H2).
Qed.

Lemma getcol_concat c (frames : list DataFrame) :
  Forall (λ g, ∃ vs, getcol c g = inr vs) frames →
  ∃ vs, getcol c (concat frames) = inr vs.
Proof.
  induction 1 as [|g frames [vs Hg] _ [ws IH]]; simpl; [by eexists|].
  eexists. by apply getcol_app.
Qed.

Lemma getcol_Position_sma_frame fw sw dfi :
  0 ≤ fw → 0 ≤ sw →
  getcol "Position" (sma_frame fw sw dfi)
  = inr (shift (crossover_signal (roll_mean (Z.to_nat fw) (col_DlyClose dfi))
                                 (roll_mean (Z.to_nat sw) (col_DlyClose dfi)))).
Proof.
  intros Hfw Hsw. unfold sma_frame.
  destruct (calculate_sma_columns dfi fw sw Hfw Hsw)
    as (dfo & -> & _ & _ & _ & fast & slow & signal & position
        & _ & _ & _ & Hp & _ & _ & _ & _ & Hf & Hs & -> & ->).
  rewrite rolling_mean_ok in Hf, Hs by done.
  injection Hf as <-. injection Hs as <-. done.
Qed.

Lemma getcol_Position_panel_frame fw sw df :
  0 ≤ fw → 0 ≤ sw → ∃ position, getcol "Position" (panel_frame fw sw df) = inr position.
Proof.
  intros Hfw Hsw. unfold panel_frame. apply getcol_concat.
  apply Forall_fmap, Forall_forall. intros k _. simpl.
  eexists. by apply getcol_Position_sma_frame.
Qed.

Lemma Forall_Ticker_panel_frame fw sw df :
  0 ≤ fw → 0 ≤ sw →
  Forall (λ r, Ticker r ∈ col_Ticker df) (panel_frame fw sw df).
Proof.
  intros Hfw Hsw. unfold panel_frame.
  apply Forall_concat, Forall_fmap, Forall_forall. intros k Hk. simpl.
  apply elem_of_group_keys in Hk.
  apply (Forall_Ticker_col (λ t, t ∈ col_Ticker df)).
  rewrite col_Ticker_sma_frame by done.
  apply (Forall_Ticker_col (λ t, t ∈ col_Ticker df)).
  eapply Forall_impl; [apply (Forall_rows_of k df)|].
  simpl. by intros r ->.
Qed.

Lemma panel_run fw sw df :
  0 ≤ fw → 0 ≤ sw → df ≠ [] →
  panel fw sw df = inr (panel_returns (panel_frame fw sw df)).2.
Proof.
  intros Hfw Hsw Hne. unfold panel, exec.
  rewrite panel_sma_run by done.
  destruct (getcol_Position_panel_frame fw sw df Hfw Hsw) as [position Hp].
  by rewrite (panel_returns_run _ _ Hp).
Qed.

Lemma col_Ticker_panel_returns df position :
  getcol "Position" df = inr position →
  col_Ticker (panel_returns df).2 = col_Ticker df.
Proof.
  intros Hp. pose proof (length_getcol _ _ _ Hp) as Lp.
  rewrite (panel_returns_run _ _ Hp). cbv zeta. simpl.
  assert (length (group_pct_change (col_Ticker df) (col_DlyClose df))
          = length df) as Ld
    by (rewrite length_group_pct_change; solve_len).
  set (daily := group_pct_change (col_Ticker df) (col_DlyClose df)) in *.
  assert (length (mul position daily) = length df) as Ls by solve_len.
  assert (length (group_cumprod (col_Ticker df) (one_plus daily)) = length df)
    as Lm by (unfold group_cumprod; rewrite length_group_cumprod_from; solve_len).
  assert (length (group_cumprod (col_Ticker df) (one_plus (mul position daily)))
          = length df)
    as Lt by (unfold group_cumprod; rewrite length_group_cumprod_from; solve_len).
  unfold returns_frame.
  rewrite !col_Ticker_setcol by solve_len. done.
Qed.

Lemma length_roll_mean w xs : length (roll_mean w xs) = length xs.
Proof. unfold roll_mean. by rewrite length_map, length_seq. Qed.

Lemma length_asset_position fw sw closes :
  length (asset_position fw sw closes) = length closes.
Proof.
  unfold asset_position.
  rewrite length_shift, length_crossover_signal, length_roll_mean;
    by rewrite ?length_roll_mean.
Qed.

(** What the single-asset returns cell leaves on the frame
    [calculate_sma] returned. *)
Lemma single_returns_sma_frame fw sw dfi :
  0 ≤ fw → 0 ≤ sw →
  let closes := col_DlyClose dfi in
  single_returns (sma_frame fw sw dfi)
  = (inr (),
     returns_frame (asset_daily closes) (asset_strategy_daily fw sw closes)
       (asset_market closes) (asset_strategy fw sw closes)
       (sma_frame fw sw dfi)).
Proof.
  intros Hfw Hsw closes.
  rewrite (single_returns_run _ _ (getcol_Position_sma_frame fw sw dfi Hfw Hsw)).
  cbv zeta. by rewrite col_DlyClose_sma_frame.
Qed.

Lemma returns_frame_columns daily sdaily market strategy df :
  length daily = length df → length sdaily = length df →
  length market = length df → length strategy = length df →
  getcol "MarketDaily" (returns_frame daily sdaily market strategy df) = inr daily ∧
  getcol "StrategyDaily" (returns_frame daily sdaily market strategy df) = inr sdaily ∧
  getcol "Market" (returns_frame daily sdaily market strategy df) = inr market ∧
  getcol "Strategy" (returns_frame daily sdaily market strategy df) = inr strategy ∧
  (∀ c, c ∉ ["MarketDaily"; "StrategyDaily"; "Market"; "Strategy"] →
        getcol c (returns_frame daily sdaily market strategy df) = getcol c df).
Proof.
  intros Ld Ls Lm Lt. unfold returns_frame.
  repeat split; try (by repeat read_col).
  intros c Hc.
  apply not_elem_of_cons in Hc as [H1 Hc].
  apply not_elem_of_cons in Hc as [H2 Hc].
  apply not_elem_of_cons in Hc as [H3 Hc].
  apply not_elem_of_cons in Hc as [H4 _].
  repeat (rewrite getcol_setcol_ne by first [congruence | solve_len]).
  done.
Qed.

Lemma elem_of_col_Ticker_rows_of name df :
  name ∈ col_Ticker df → name ∈ col_Ticker (rows_of name df).
Proof.
  unfold col_Ticker. intros Hin.
  apply list_elem_of_fmap in Hin as (r & -> & Hr).
  apply list_elem_of_fmap. exists r. split; [done|].
  unfold rows_of. by apply list_elem_of_filter.
Qed.

Lemma rows_of_idemp name df : rows_of name (rows_of name df) = rows_of name df.
Proof. apply rows_of_all, Forall_rows_of. Qed.

(** The rows of one asset in the output of the panel cells. *)
Lemma rows_of_panel fw sw df name :
  0 ≤ fw → 0 ≤ sw → name ∈ col_Ticker df →
  ∃ out, panel fw sw df = inr out ∧
    rows_of name out
    = (let closes := col_DlyClose (rows_of name df) in
       returns_frame (asset_daily closes) (asset_strategy_daily fw sw closes)
         (asset_market closes) (asset_strategy fw sw closes)
         (sma_frame fw sw (rows_of name df))).
Proof.
  intros Hfw Hsw Hin.
  assert (df ≠ []) as Hne by (intros ->; by apply elem_of_nil in Hin).
  exists (panel_returns (panel_frame fw sw df)).2.
  split; [by apply panel_run|].
  destruct (getcol_Position_panel_frame fw sw df Hfw Hsw) as [position Hp].
  rewrite (rows_of_panel_returns name _ _ Hp).
  rewrite rows_of_panel_frame by done.
  by rewrite single_returns_sma_frame.
Qed.

Lemma rows_of_panel_single fw sw df name :
  0 ≤ fw → 0 ≤ sw → df ≠ [] → Forall (λ r, Ticker r = name) df →
  ∃ out, panel fw sw df = inr out ∧ rows_of name out = out.
Proof.
  intros Hfw Hsw Hne Hall.
  exists (panel_returns (panel_frame fw sw df)).2.
  split; [by apply panel_run|].
  destruct (getcol_Position_panel_frame fw sw df Hfw Hsw) as [position Hp].
  apply rows_of_all, (Forall_Ticker_col (λ t, t = name)).
  rewrite (col_Ticker_panel_returns _ _ Hp).
  apply (Forall_Ticker_col (λ t, t = name)).
  eapply Forall_impl; [by apply Forall_Ticker_panel_frame|].
  simpl. intros r Hr.
  apply (Forall_Ticker_col (λ t, t = name)) in Hall.
  by apply (proj1 (Forall_forall _ _) Hall).
Qed.

Lemma length_asset_columns fw sw closes :
  length (asset_daily closes) = length closes ∧
  length (asset_strategy_daily fw sw closes) = length closes ∧
  length (asset_market closes) = length closes ∧
  length (asset_strategy fw sw closes) = length closes.
Proof.
  unfold asset_strategy, asset_market, asset_strategy_daily, asset_daily.
  pose proof (length_asset_position fw sw closes).
  repeat split; solve_len.
Qed.

(** The return columns of one asset in the output of the panel cells. *)
Lemma panel_asset_columns fw sw df name :
  0 ≤ fw → 0 ≤ sw → name ∈ col_Ticker df →
  ∃ out, panel fw sw df = inr out ∧
    let closes := col_DlyClose (rows_of name df) in
    getcol "MarketDaily" (rows_of name out) = inr (asset_daily closes) ∧
    getcol "StrategyDaily" (rows_of name out)
    = inr (asset_strategy_daily fw sw closes) ∧
    getcol "Market" (rows_of name out) = inr (asset_market closes) ∧
    getcol "Strategy" (rows_of name out) = inr (asset_strategy fw sw closes).
Proof.
  intros Hfw Hsw Hin.
  destruct (rows_of_panel fw sw df name Hfw Hsw Hin) as (out & Hout & Hrows).
  exists out. split; [done|]. intros closes.
  rewrite Hrows. cbv zeta. fold closes.
  destruct (length_asset_columns fw sw closes) as (L1 & L2 & L3 & L4).
  assert (length closes = length (sma_frame fw sw (rows_of name df))) as Lc
    by (subst closes; rewrite length_sma_frame, length_col_DlyClose by done;
        done).
  destruct (returns_frame_columns (asset_daily closes)
              (asset_strategy_daily fw sw closes) (asset_market closes)
              (asset_strategy fw sw closes)
              (sma_frame fw sw (rows_of name df)))
    as (? & ? & ? & ? & _); try congruence. done.
Qed.

(** C7. For every panel and every asset in it, the rows of the asset in
    the output of the panel cells are what the single-asset computation
    gives on the series of that asset alone: the daily return is the
    [pct_change] of its own closes and the cumulative columns are the
    [cumprod] of its own daily returns.  So two assets with the same
    closes get the same return columns. *)
Theorem panel_is_single_asset_per_asset (df : DataFrame) (fw sw : Z)
    (name : string) :
  1 ≤ fw → 1 ≤ sw → name ∈ col_Ticker df →
  ∃ out, panel fw sw df = inr out ∧
    (∃ sma, calculate_sma fw sw (rows_of name df) = (inr sma, sma) ∧
            single_returns sma = (inr (), rows_of name out)) ∧
    panel fw sw (rows_of name df) = inr (rows_of name out) ∧
    (let closes := col_DlyClose (rows_of name df) in
     getcol "MarketDaily" (rows_of name out) = inr (pct_change closes) ∧
     getcol "Market" (rows_of name out)
     = inr (cumprod (one_plus (pct_change closes))) ∧
     getcol "StrategyDaily" (rows_of name out)
     = inr (mul (asset_position fw sw closes) (pct_change closes)) ∧
     getcol "Strategy" (rows_of name out)
     = inr (cumprod (one_plus (mul (asset_position fw sw closes)
                                   (pct_change closes))))) ∧
    (∀ name', name' ∈ col_Ticker df →
       col_DlyClose (rows_of name' df) = col_DlyClose (rows_of name df) →
       ∀ c, c ∈ ["MarketDaily"; "StrategyDaily"; "Market"; "Strategy"] →
            getcol c (rows_of name' out) = getcol c (rows_of name out)).
Proof.
  intros Hfw Hsw Hin.
  assert (0 ≤ fw) as Hfw0 by lia. assert (0 ≤ sw) as Hsw0 by lia.
  destruct (rows_of_panel fw sw df name Hfw0 Hsw0 Hin) as (out & Hout & Hrows).
  exists out. split; [done|].
  assert (∀ n, n ∈ col_Ticker df →
            let closes := col_DlyClose (rows_of n df) in
            getcol "MarketDaily" (rows_of n out) = inr (asset_daily closes) ∧
            getcol "StrategyDaily" (rows_of n out)
            = inr (asset_strategy_daily fw sw closes) ∧
            getcol "Market" (rows_of n out) = inr (asset_market closes) ∧
            getcol "Strategy" (rows_of n out)
            = inr (asset_strategy fw sw closes)) as Hcols.
  { intros n Hn.
    destruct (panel_asset_columns fw sw df n Hfw0 Hsw0 Hn) as (out' & Hout' & H').
    assert (out' = out) as -> by congruence. done. }
  split; [|split; [|split]].
  - exists (sma_frame fw sw (rows_of name df)).
    split; [by apply calculate_sma_sma_frame|].
    rewrite single_returns_sma_frame by done. by rewrite Hrows.
  - assert (rows_of name df ≠ []) as Hne.
    { intros Hnil. apply elem_of_col_Ticker_rows_of in Hin.
      rewrite Hnil in Hin. by apply elem_of_nil in Hin. }
    destruct (rows_of_panel_single fw sw (rows_of name df) name Hfw0 Hsw0 Hne
                (Forall_rows_of name df)) as (out' & Hout' & Hall).
    destruct (rows_of_panel fw sw (rows_of name df) name Hfw0 Hsw0
                (elem_of_col_Ticker_rows_of _ _ Hin)) as (out2 & Hout2 & Hrows2).
    assert (out2 = out') as -> by congruence.
    rewrite Hall, rows_of_idemp in Hrows2. rewrite Hout'. f_equal. congruence.
  - destruct (Hcols name Hin) as (H1 & H2 & H3 & H4). done.
  - intros name' Hin' Hsame c Hc.
    destruct (Hcols name Hin) as (H1 & H2 & H3 & H4).
    destruct (Hcols name' Hin') as (H1' & H2' & H3' & H4').
    cbv zeta in *. rewrite Hsame in *.
    repeat (apply elem_of_cons in Hc as [->|Hc]; [congruence|]).
    by apply elem_of_nil in Hc.
Qed.

Lemma output_has_rows_of_input_witness :
  two_assets ≠ [] ∧ 1 ≤ 2 ∧ 1 ≤ 3 ∧
  (∃ dfo, calculate_sma 2 3 two_assets = (inr dfo, dfo) ∧
          length dfo = length two_assets) ∧
  (∃ out, panel_sma 2 3 two_assets = inr out ∧
          length out = length two_assets).
Proof.
  split; [discriminate|]. split; [lia|]. split; [lia|].
  apply output_has_rows_of_input; [discriminate|lia|lia].
Defined.

Lemma META_in_two_assets : "META" ∈ col_Ticker two_assets.
Proof. apply list_elem_of_here. Qed.

Lemma panel_is_single_asset_per_asset_witness :
  1 ≤ 2 ∧ 1 ≤ 3 ∧ "META" ∈ col_Ticker two_assets ∧
  ∃ out, panel 2 3 two_assets = inr out ∧
    (∃ sma, calculate_sma 2 3 (rows_of "META" two_assets) = (inr sma, sma) ∧
            single_returns sma = (inr (), rows_of "META" out)) ∧
    panel 2 3 (rows_of "META" two_assets) = inr (rows_of "META" out) ∧
    (∀ c, c ∈ ["MarketDaily"; "StrategyDaily"; "Market"; "Strategy"] →
          getcol c (rows_of "AAPL" out) = getcol c (rows_of "META" out)).
Proof.
  split; [lia|]. split; [lia|]. split; [apply META_in_two_assets|].
  destruct (panel_is_single_asset_per_asset two_assets 2 3 "META")
    as (out & Hout & Hsingle & Halone & _ & Hsame);
    [lia|lia|apply META_in_two_assets|].
  exists out. split; [exact Hout|].
  split; [exact Hsingle|].
  split; [exact Halone|].
  apply Hsame; [|vm_compute; reflexivity].
  apply list_elem_of_further, list_elem_of_here.
Defined.

(** ** The first row of an asset *)

Lemma pct_change_head x xs : pct_change (x :: xs) !! 0%nat = Some (Float NaN).
Proof. unfold pct_change. simpl. by destruct (to_float x). Qed.

Lemma mul_head_nan xs ys y :
  xs !! 0%nat = Some (Float NaN) → ys !! 0%nat = Some y →
  mul xs ys !! 0%nat = Some (Float NaN).
Proof.
  intros Hx Hy. unfold mul. by rewrite lookup_zip_with, Hx, Hy.
Qed.

Lemma cumprod_one_plus_head_nan xs :
  xs !! 0%nat = Some (Float NaN) →
  cumprod (one_plus xs) !! 0%nat = Some (Float NaN).
Proof. destruct xs as [|x xs]; [done|]. by intros [= ->]. Qed.

Lemma minus_one_head_nan xs :
  xs !! 0%nat = Some (Float NaN) →
  minus_one xs !! 0%nat = Some (Float NaN).
Proof. destruct xs as [|x xs]; [done|]. by intros [= ->]. Qed.

Lemma asset_position_head fw sw closes :
  closes ≠ [] → asset_position fw sw closes !! 0%nat = Some (Float NaN).
Proof.
  intros Hne. unfold asset_position. apply shift_lookup_0.
  intros Hnil. apply (f_equal length) in Hnil.
  rewrite length_crossover_signal, length_roll_mean in Hnil
    by (by rewrite !length_roll_mean).
  by destruct closes.
Qed.

Lemma getcol_Position_rows_of_panel fw sw df name out :
  0 ≤ fw → 0 ≤ sw → name ∈ col_Ticker df → panel fw sw df = inr out →
  getcol "Position" (rows_of name out)
  = inr (asset_position fw sw (col_DlyClose (rows_of name df))).
Proof.
  intros Hfw Hsw Hin Hout.
  destruct (rows_of_panel fw sw df name Hfw Hsw Hin) as (out' & Hout' & Hr).
  assert (out' = out) as -> by congruence. rewrite Hr.
  cbv zeta. set (closes := col_DlyClose (rows_of name df)).
  destruct (length_asset_columns fw sw closes) as (L1 & L2 & L3 & L4).
  assert (length closes = length (sma_frame fw sw (rows_of name df))) as Lc
    by (subst closes; rewrite length_sma_frame, length_col_DlyClose by done;
        done).
  destruct (returns_frame_columns (asset_daily closes)
              (asset_strategy_daily fw sw closes) (asset_market closes)
              (asset_strategy fw sw closes)
              (sma_frame fw sw (rows_of name df)))
    as (_ & _ & _ & _ & Hother); try congruence.
  rewrite Hother.
  - by apply getcol_Position_sma_frame.
  - rewrite !not_elem_of_cons. repeat split; try discriminate.
    apply not_elem_of_nil.
Qed.

(** What the exponential cell leaves when [meta] has the column
    [MarketDaily]. *)
Lemma ema_strategy_returns meta fw sw daily :
  1 ≤ fw → 1 ≤ sw → getcol "MarketDaily" meta = inr daily →
  ∃ ema position,
    ema_strategy fw sw meta = (inr (), ema) ∧ length ema = length meta ∧
    length position = length meta ∧
    (meta ≠ [] → position !! 0%nat = Some (Float NaN)) ∧
    getcol "Position" ema = inr position ∧
    getcol "MarketDaily" ema = inr daily ∧
    getcol "StratRet" ema = inr (mul position daily) ∧
    getcol "Strategy" ema
    = inr (minus_one (cumprod (one_plus (mul position daily)))).
Proof.
  intros Hfw Hsw Hd. pose proof (length_getcol _ _ _ Hd) as Ld.
  destruct (ewm_mean_ok fw (col_DlyClose meta) Hfw) as [fast Hf].
  destruct (ewm_mean_ok sw (col_DlyClose meta) Hsw) as [slow Hs].
  pose proof (length_ewm_mean _ _ _ Hf) as Lf.
  pose proof (length_ewm_mean _ _ _ Hs) as Ls.
  rewrite length_col_DlyClose in Lf, Ls.
  rewrite (ema_strategy_run fw sw meta fast slow Hf Hs). cbv zeta.
  rewrite Hd.
  set (ema := crossover_frame "FastEMA" "SlowEMA" fast slow meta).
  set (position := shift (crossover_signal fast slow)).
  assert (length ema = length meta) as Le by (by apply length_crossover_frame).
  assert (length position = length meta) as Lp
    by (subst position; rewrite length_shift, length_crossover_signal;
        congruence).
  assert (length (mul position daily) = length meta) as Lm by solve_len.
  eexists _, position. split; [done|].
  split; [solve_len|]. split; [done|].
  split.
  { intros Hne. apply shift_lookup_0. intros Hnil.
    apply (f_equal length) in Hnil.
    rewrite length_crossover_signal in Hnil by congruence.
    destruct meta; [done|]. simpl in *. lia. }
  rewrite !getcol_setcol_ne by first [done | solve_len].
  rewrite !getcol_setcol_eq by solve_len.
  subst ema position.
  rewrite crossover_frame_position by done.
  rewrite crossover_frame_other; [done|done..|].
  rewrite !not_elem_of_cons. repeat split; try discriminate.
  apply not_elem_of_nil.
Qed.

Lemma elem_of_col_Ticker_of_rows name df :
  rows_of name df ≠ [] → name ∈ col_Ticker df.
Proof.
  intros Hne. destruct (rows_of name df) as [|r rest] eqn:Hr; [done|].
  assert (r ∈ rows_of name df) as Hin by (rewrite Hr; apply list_elem_of_here).
  unfold rows_of in Hin. apply list_elem_of_filter in Hin as [<- Hin].
  unfold col_Ticker. by apply list_elem_of_fmap_2.
Qed.

Lemma rows_of_nonempty name df : name ∈ col_Ticker df → rows_of name df ≠ [].
Proof.
  intros Hin Hnil. apply elem_of_col_Ticker_rows_of in Hin.
  rewrite Hnil in Hin. by apply elem_of_nil in Hin.
Qed.

(** C10. At the first row of each asset the position and the daily return
    are both missing, so the daily strategy return is missing (NaN, not 0)
    and so is the cumulative strategy return: in the panel for every
    ticker, and in the frame the exponential cell leaves for the single
    stock. *)
Theorem first_row_of_an_asset_is_missing (df : DataFrame) (fw sw : Z) :
  1 ≤ fw → 1 ≤ sw →
  (∀ name, name ∈ col_Ticker df →
     ∃ out position daily sdaily strategy,
       panel fw sw df = inr out ∧
       getcol "Position" (rows_of name out) = inr position ∧
       getcol "MarketDaily" (rows_of name out) = inr daily ∧
       getcol "StrategyDaily" (rows_of name out) = inr sdaily ∧
       getcol "Strategy" (rows_of name out) = inr strategy ∧
       position !! 0%nat = Some (Float NaN) ∧
       daily !! 0%nat = Some (Float NaN) ∧
       sdaily !! 0%nat = Some (Float NaN) ∧
       strategy !! 0%nat = Some (Float NaN)) ∧
  ("META" ∈ col_Ticker df →
     ∃ ema position daily stratret strategy,
       notebook fw sw df = inr ema ∧
       getcol "Position" ema = inr position ∧
       getcol "MarketDaily" ema = inr daily ∧
       getcol "StratRet" ema = inr stratret ∧
       getcol "Strategy" ema = inr strategy ∧
       position !! 0%nat = Some (Float NaN) ∧
       daily !! 0%nat = Some (Float NaN) ∧
       stratret !! 0%nat = Some (Float NaN) ∧
       strategy !! 0%nat = Some (Float NaN)).
Proof.
  intros Hfw Hsw.
  assert (0 ≤ fw) as Hfw0 by lia. assert (0 ≤ sw) as Hsw0 by lia.
  assert (∀ name, name ∈ col_Ticker df →
     ∃ out, panel fw sw df = inr out ∧
       let closes := col_DlyClose (rows_of name df) in
       rows_of name out ≠ [] ∧
       getcol "Position" (rows_of name out) = inr (asset_position fw sw closes) ∧
       getcol "MarketDaily" (rows_of name out) = inr (pct_change closes) ∧
       getcol "StrategyDaily" (rows_of name out)
       = inr (mul (asset_position fw sw closes) (pct_change closes)) ∧
       getcol "Strategy" (rows_of name out)
       = inr (cumprod (one_plus (mul (asset_position fw sw closes)
                                     (pct_change closes)))) ∧
       asset_position fw sw closes !! 0%nat = Some (Float NaN) ∧
       pct_change closes !! 0%nat = Some (Float NaN)) as Hpanel.
  { intros name Hin.
    destruct (panel_asset_columns fw sw df name Hfw0 Hsw0 Hin)
      as (out & Hout & H1 & H2 & _ & H4).
    exists out. split; [done|]. cbv zeta.
    pose proof (rows_of_nonempty name df Hin) as Hrows.
    assert (col_DlyClose (rows_of name df) ≠ []) as Hcl
      by (by destruct (rows_of name df)).
    split; [|split; [|split; [|split; [|split; [|split]]]]].
    - destruct (rows_of_panel fw sw df name Hfw0 Hsw0 Hin) as (out' & Hout' & Hr).
      assert (out' = out) as -> by congruence.
      intros Hnil. apply (f_equal length) in Hnil. rewrite Hr in Hnil.
      cbv zeta in Hnil. unfold returns_frame in Hnil.
      destruct (length_asset_columns fw sw (col_DlyClose (rows_of name df)))
        as (L1 & L2 & L3 & L4).
      pose proof (length_sma_frame fw sw (rows_of name df) Hfw0 Hsw0) as Ls.
      rewrite !length_setcol_min, L1, L2, L3, L4, Ls, length_col_DlyClose in Hnil.
      destruct (rows_of name df); [done|]. simpl in Hnil. lia.
    - by apply getcol_Position_rows_of_panel.
    - exact H1.
    - exact H2.
    - exact H4.
    - by apply asset_position_head.
    - destruct (col_DlyClose (rows_of name df)); [done|]. apply pct_change_head. }
  split.
  - intros name Hin.
    destruct (Hpanel name Hin) as (out & Hout & _ & Hp & Hd & Hs & Ht & Hp0 & Hd0).
    eexists out, _, _, _, _. repeat split; try done.
    + by eapply mul_head_nan.
    + apply cumprod_one_plus_head_nan. by eapply mul_head_nan.
  - intros Hin.
    destruct (Hpanel "META" Hin) as (out & Hout & Hne & _ & Hd & _ & _ & _ & Hd0).
    destruct (ema_strategy_returns (rows_of "META" out) fw sw _ Hfw Hsw Hd)
      as (ema & position & Hrun & _ & _ & Hp0 & Hp & Hdaily & Hsr & Hst).
    exists ema, position. eexists _, _, _.
    split.
    { unfold notebook, get_group, exec. rewrite Hout.
      rewrite decide_True by (by apply elem_of_col_Ticker_of_rows).
      by rewrite Hrun. }
    repeat split; try done.
    + by apply Hp0.
    + eapply mul_head_nan; [by apply Hp0|done].
    + apply minus_one_head_nan, cumprod_one_plus_head_nan.
      eapply mul_head_nan; [by apply Hp0|done].
Qed.

Lemma first_row_of_an_asset_is_missing_witness :
  1 ≤ 2 ∧ 1 ≤ 3 ∧ "META" ∈ col_Ticker two_assets ∧
  (∃ out position daily sdaily strategy,
     panel 2 3 two_assets = inr out ∧
     getcol "Position" (rows_of "META" out) = inr position ∧
     getcol "MarketDaily" (rows_of "META" out) = inr daily ∧
     getcol "StrategyDaily" (rows_of "META" out) = inr sdaily ∧
     getcol "Strategy" (rows_of "META" out) = inr strategy ∧
     position !! 0%nat = Some (Float NaN) ∧
     daily !! 0%nat = Some (Float NaN) ∧
     sdaily !! 0%nat = Some (Float NaN) ∧
     strategy !! 0%nat = Some (Float NaN)) ∧
  (∃ ema position daily stratret strategy,
     notebook 2 3 two_assets = inr ema ∧
     getcol "Position" ema = inr position ∧
     getcol "MarketDaily" ema = inr daily ∧
     getcol "StratRet" ema = inr stratret ∧
     getcol "Strategy" ema = inr strategy ∧
     position !! 0%nat = Some (Float NaN) ∧
     daily !! 0%nat = Some (Float NaN) ∧
     stratret !! 0%nat = Some (Float NaN) ∧
     strategy !! 0%nat = Some (Float NaN)).
Proof.
  split; [lia|]. split; [lia|]. split; [apply META_in_two_assets|].
  destruct (first_row_of_an_asset_is_missing two_assets 2 3) as [Hpanel Hema];
    [lia|lia|].
  split; [apply Hpanel|apply Hema]; apply META_in_two_assets.
Defined.

(** ** Compounding *)



(** C1 on the code, at a series of two closes, 10 and 11, with the windows
    of the cells.  In the panel the daily return of the second day is 1/10
    and the [Market] column holds the running product 11/10, not the
    return 1/10; the [Strategy] column holds 1, not 0.  The exponential
    cell does subtract 1: its [Strategy] is the running product minus 1. *)
Theorem panel_cumulative_columns_keep_the_one :
  let df := prices "META" [10; 11]%Q in
  (∃ out daily sdaily market strategy,
     panel 50 200 df = inr out ∧
     getcol "MarketDaily" out = inr daily ∧
     getcol "StrategyDaily" out = inr sdaily ∧
     getcol "Market" out = inr market ∧
     getcol "Strategy" out = inr strategy ∧
     daily !! 1%nat = Some (Float (Some ((11 / 10) - 1)%Q)) ∧
     market !! 1%nat = Some (Float (Some (running_product (one_plus daily) 1))) ∧
     strategy !! 1%nat = Some (Float (Some (running_product (one_plus sdaily) 1))) ∧
     (running_product (one_plus daily) 1 == 11 # 10)%Q ∧
     ¬ (running_product (one_plus daily) 1 == (11 # 10) - 1)%Q ∧
     (running_product (one_plus sdaily) 1 == 1)%Q) ∧
  (∃ ema stratret strategy q,
     notebook 50 200 df = inr ema ∧
     getcol "StratRet" ema = inr stratret ∧
     getcol "Strategy" ema = inr strategy ∧
     strategy !! 1%nat = Some (Float (Some q)) ∧
     (q == running_product (one_plus stratret) 1 - 1)%Q).
Proof.
  split.
  - eexists _, _, _, _, _.
    split; [vm_compute; reflexivity|].
    split; [vm_compute; reflexivity|].
    split; [vm_compute; reflexivity|].
    split; [vm_compute; reflexivity|].
    split; [vm_compute; reflexivity|].
    split; [vm_compute; reflexivity|].
    split; [vm_compute; reflexivity|].
    split; [vm_compute; reflexivity|].
    split; [vm_compute; reflexivity|].
    split; [|vm_compute; reflexivity].
    intros H. vm_compute in H. discriminate.
  - eexists _, _, _, _.
    split; [vm_compute; reflexivity|].
    split; [vm_compute; reflexivity|].
    split; [vm_compute; reflexivity|].
    split; [vm_compute; reflexivity|].
    vm_compute. reflexivity.
Qed.

(** * Further properties of the notebook *)

(** ** The order of the tickers *)

Lemma String_as_OT_compare a b : String_as_OT.compare a b = String.compare a b.
Proof.
  revert b. induction a as [|x a IH]; intros [|y b]; simpl; try done.
Qed.

Lemma str_le_alt a b : str_le a b ↔ a = b ∨ String_as_OT.lt a b.
Proof.
  unfold str_le, String.leb, String_as_OT.lt.
  pose proof (String_as_OT_compare a b) as Hc. revert Hc.
  destruct (String.compare a b) eqn:E; intros ->.
  - split; [|done]. intros _. left. by apply String.compare_eq_iff.
  - split; [|done]. auto.
  - split; [done|]. intros [->|]; [|done].
    pose proof (String.compare_antisym b b) as H. rewrite E in H. discriminate.
Qed.

#[global] Instance str_le_refl : Reflexive str_le.
Proof. intros a. apply str_le_alt. by left. Qed.

#[global] Instance str_le_trans : Transitive str_le.
Proof.
  intros a b c Hab Hbc. apply str_le_alt in Hab, Hbc. apply str_le_alt.
  destruct Hab as [->|Hab]; [done|]. destruct Hbc as [<-|Hbc]; [by right|].
  right. by transitivity b.
Qed.

#[global] Instance str_le_total : Total str_le.
Proof. intros a b. apply String.leb_total. Qed.

#[global] Instance str_le_antisym : AntiSymm (=) str_le.
Proof. intros a b. apply String.leb_antisym. Qed.

Lemma Sorted_group_keys df : Sorted str_le (group_keys df).
Proof. unfold group_keys. apply (Sorted_merge_sort str_le). Qed.

Lemma getcol_error c df e : getcol c df = inl e → e = AttributeError.
Proof.
  revert e. induction df as [|r df IH]; intros e; simpl; [discriminate|].
  destruct (extra r !! c), (getcol c df); by intros [= <-].
Qed.

(** ** The panel comes back grouped by ticker *)

Lemma same_outside_base cols dfi dfo :
  same_outside cols dfi dfo → base <$> dfo = base <$> dfi.
Proof.
  unfold same_outside. induction 1 as [|a b l1 l2 (H1 & H2 & H3 & _) _ IH];
    [done|].
  csimpl. f_equal; [|done]. unfold base. by rewrite H1, H2, H3.
Qed.

Lemma sma_frame_crossover_frame fw sw dfi :
  0 ≤ fw → 0 ≤ sw →
  sma_frame fw sw dfi
  = crossover_frame "FastMA" "SlowMA"
      (roll_mean (Z.to_nat fw) (col_DlyClose dfi))
      (roll_mean (Z.to_nat sw) (col_DlyClose dfi)) dfi.
Proof.
  intros Hfw Hsw. unfold sma_frame.
  by rewrite (calculate_sma_run fw sw dfi _ _ (rolling_mean_ok fw _ Hfw)
                (rolling_mean_ok sw _ Hsw)).
Qed.

Lemma base_sma_frame fw sw dfi :
  0 ≤ fw → 0 ≤ sw → base <$> sma_frame fw sw dfi = base <$> dfi.
Proof.
  intros Hfw Hsw. rewrite sma_frame_crossover_frame by done.
  apply (same_outside_base ["FastMA"; "SlowMA"; "Signal"; "Position"]).
  apply same_outside_crossover_frame;
    by rewrite length_roll_mean, length_col_DlyClose.
Qed.

Lemma fmap_concat {A B} (f : A → B) (ls : list (list A)) :
  f <$> concat ls = concat ((λ l : list A, f <$> l) <$> ls).
Proof.
  induction ls as [|l ls IH]; [done|]. simpl. by rewrite fmap_app, IH.
Qed.

(** The groups of a frame, one after the other, hold every row once. *)
Lemma concat_groups_Permutation df keys :
  NoDup keys → Forall (λ r, Ticker r ∈ keys) df →
  concat ((λ k, rows_of k df) <$> keys) ≡ₚ df.
Proof.
  intros Hnd. revert df.
  induction Hnd as [|k ks Hk Hnd IH]; intros df Hall.
  - destruct Hall as [|r df Hr _]; [done|]. by apply elem_of_nil in Hr.
  - csimpl.
    transitivity (filter (λ r, Ticker r = k) df
                  ++ filter (λ r, ¬ Ticker r = k) df);
      [|apply filter_app_complement].
    unfold rows_of at 1. f_equiv.
    assert ((λ k', rows_of k' df) <$> ks
            = (λ k', rows_of k' (filter (λ r, ¬ Ticker r = k) df)) <$> ks) as ->.
    { apply list_fmap_ext. intros i k' Hk'.
      apply list_elem_of_lookup_2 in Hk'. unfold rows_of.
      rewrite list_filter_filter. apply list_filter_iff. intros r.
      split; [|tauto]. intros ->. split; [done|]. by intros ->. }
    apply IH. apply Forall_forall. intros r Hr.
    apply list_elem_of_filter in Hr as [Hne Hr].
    apply (proj1 (Forall_forall _ _) Hall) in Hr.
    apply elem_of_cons in Hr as [?|?]; [done|done].
Qed.

Lemma StronglySorted_block_app k (block rest : list string) :
  Forall (λ t, t = k) block → StronglySorted str_le rest →
  Forall (str_le k) rest → StronglySorted str_le (block ++ rest).
Proof.
  intros Hblock Hs Hrest.
  induction Hblock as [|t ts -> Hts IH]; simpl; [done|].
  constructor; [done|]. apply Forall_app. split; [|done].
  eapply Forall_impl; [apply Hts|]. by intros t ->.
Qed.

Lemma StronglySorted_blocks (block : string → list string) keys :
  StronglySorted str_le keys →
  (∀ k, Forall (λ t, t = k) (block k)) →
  StronglySorted str_le (concat (block <$> keys)).
Proof.
  intros Hs Hblock.
  induction Hs as [|k ks Hs IH Hk]; simpl; [constructor|].
  apply (StronglySorted_block_app k); [apply Hblock|done|].
  apply Forall_concat, Forall_fmap, Forall_forall. intros k' Hk'. simpl.
  eapply Forall_impl; [apply Hblock|]. simpl. intros t ->.
  by apply (proj1 (Forall_forall _ _) Hk).
Qed.

(** X1. For a non-empty panel and windows that [rolling] accepts, the
    group-wise cell returns the rows of the panel regrouped: per ticker in
    ascending ticker order, each group in the order of the panel, with the
    ticker, day and close of every row kept.  No row is lost or repeated,
    and the ticker column of the result is sorted. *)
Theorem panel_sma_regroups (df : DataFrame) (fw sw : Z) :
  df ≠ [] → 0 ≤ fw → 0 ≤ sw →
  ∃ out, panel_sma fw sw df = inr out ∧
    base <$> out = concat ((λ k, base <$> rows_of k df) <$> group_keys df) ∧
    base <$> out ≡ₚ base <$> df ∧
    Sorted str_le (col_Ticker out).
Proof.
  intros Hne Hfw Hsw. exists (panel_frame fw sw df).
  split; [by apply panel_sma_run|].
  assert (base <$> panel_frame fw sw df
          = concat ((λ k, base <$> rows_of k df) <$> group_keys df)) as Hbase.
  { unfold panel_frame. rewrite fmap_concat, <- list_fmap_compose.
    f_equal. apply list_fmap_ext. intros _ k _. simpl.
    by apply base_sma_frame. }
  split; [done|]. split.
  - rewrite Hbase.
    rewrite <- (concat_groups_Permutation df (group_keys df)) at 2;
      [|apply NoDup_group_keys|apply Forall_Ticker_group_keys].
    by rewrite fmap_concat, <- list_fmap_compose.
  - apply StronglySorted_Sorted.
    assert (col_Ticker (panel_frame fw sw df)
            = concat ((λ k, col_Ticker (rows_of k df)) <$> group_keys df)) as ->.
    { unfold panel_frame.
      change (col_Ticker (concat ?x)) with (Ticker <$> concat x).
      rewrite (fmap_concat Ticker), <- list_fmap_compose.
      f_equal. apply list_fmap_ext. intros _ k _. simpl.
      by apply (col_Ticker_sma_frame fw sw). }
    apply (StronglySorted_blocks (λ k, col_Ticker (rows_of k df))).
    + apply Sorted_StronglySorted; [apply _|apply Sorted_group_keys].
    + intros k. apply (Forall_Ticker_col (λ t, t = k)), Forall_rows_of.
Qed.

Lemma panel_sma_regroups_witness :
  two_assets ≠ [] ∧ 0 ≤ 2 ∧ 0 ≤ 3 ∧
  ∃ out, panel_sma 2 3 two_assets = inr out ∧
    base <$> out
    = concat ((λ k, base <$> rows_of k two_assets) <$> group_keys two_assets) ∧
    base <$> out ≡ₚ base <$> two_assets ∧
    Sorted str_le (col_Ticker out).
Proof.
  split; [discriminate|]. split; [lia|]. split; [lia|].
  apply panel_sma_regroups; [discriminate|lia|lia].
Defined.

(** ** What the other cells do to their frame *)

Lemma same_outside_weaken cols cols' dfi dfo :
  (∀ c, c ∈ cols → c ∈ cols') →
  same_outside cols dfi dfo → same_outside cols' dfi dfo.
Proof.
  intros Hsub H. unfold same_outside in *.
  eapply Forall2_impl; [apply H|].
  intros a b (? & ? & ? & Hc). repeat split; try done.
  intros c Hn. apply Hc. intros Hin. by apply Hn, Hsub.
Qed.

Lemma same_outside_crossover_frame_names fastc slowc fast slow df :
  length fast = length df → length slow = length df →
  same_outside [fastc; slowc; "Signal"; "Position"] df
    (crossover_frame fastc slowc fast slow df).
Proof.
  intros Lf Ls. unfold crossover_frame.
  repeat (eapply same_outside_trans;
          [|apply same_outside_setcol;
            [repeat first [apply list_elem_of_here | apply list_elem_of_further]
            | solve_len]]).
  apply same_outside_refl.
Qed.

Lemma same_outside_returns_frame daily sdaily market strategy df :
  length daily = length df → length sdaily = length df →
  length market = length df → length strategy = length df →
  same_outside ["MarketDaily"; "StrategyDaily"; "Market"; "Strategy"] df
    (returns_frame daily sdaily market strategy df).
Proof.
  intros L1 L2 L3 L4. unfold returns_frame.
  repeat (eapply same_outside_trans;
          [|apply same_outside_setcol;
            [repeat first [apply list_elem_of_here | apply list_elem_of_further]
            | solve_len]]).
  apply same_outside_refl.
Qed.

Lemma panel_returns_no_position df :
  getcol "Position" df = inl AttributeError →
  panel_returns df
  = (inl AttributeError,
     setcol "MarketDaily" (group_pct_change (col_Ticker df) (col_DlyClose df))
       df).
Proof.
  intros Hp.
  assert (length (group_pct_change (col_Ticker df) (col_DlyClose df))
          = length df) as Ld
    by (rewrite length_group_pct_change; solve_len).
  unfold panel_returns. run_step.
  by rewrite getcol_setcol_ne, Hp by done.
Qed.

Lemma length_panel_returns_columns df position :
  length position = length df →
  let daily := group_pct_change (col_Ticker df) (col_DlyClose df) in
  let sdaily := mul position daily in
  length daily = length df ∧ length sdaily = length df ∧
  length (group_cumprod (col_Ticker df) (one_plus daily)) = length df ∧
  length (group_cumprod (col_Ticker df) (one_plus sdaily)) = length df.
Proof.
  intros Lp daily sdaily.
  assert (length daily = length df) as Ld
    by (subst daily; rewrite length_group_pct_change; solve_len).
  assert (length sdaily = length df) as Ls by (subst sdaily; solve_len).
  repeat split; try done; unfold group_cumprod;
    rewrite length_group_cumprod_from; solve_len.
Qed.

(** X2. The returns cell assigns [MarketDaily], [StrategyDaily], [Market]
    and [Strategy] and nothing else: rows, prices and every other column
    stay as they were.  For a frame with at least one row: with a
    [Position] column the cell raises nothing and leaves all four columns;
    without one (the group-wise cell has not run) it raises AttributeError
    at [df.Position], after [MarketDaily] has been assigned and before any
    of the other three.  (Whether a frame without rows has a [Position]
    column is not recorded in the model, so nothing is said of it.) *)
Theorem panel_returns_effect (df : DataFrame) :
  same_outside ["MarketDaily"; "StrategyDaily"; "Market"; "Strategy"]
    df (panel_returns df).2 ∧
  (df ≠ [] →
   match getcol "Position" df with
   | inr position =>
     (panel_returns df).1 = inr () ∧
     ∀ c, c ∈ ["MarketDaily"; "StrategyDaily"; "Market"; "Strategy"] →
          ∃ vs, getcol c (panel_returns df).2 = inr vs ∧
                length vs = length df
   | inl _ =>
     (panel_returns df).1 = inl AttributeError ∧
     same_outside ["MarketDaily"] df (panel_returns df).2 ∧
     getcol "MarketDaily" (panel_returns df).2
     = inr (group_pct_change (col_Ticker df) (col_DlyClose df))
   end).
Proof.
  destruct (getcol "Position" df) as [e|position] eqn:Hp.
  - pose proof (getcol_error _ _ _ Hp) as ->.
    rewrite (panel_returns_no_position df Hp). simpl.
    assert (length (group_pct_change (col_Ticker df) (col_DlyClose df))
            = length df) as Ld
      by (rewrite length_group_pct_change; solve_len).
    assert (same_outside ["MarketDaily"] df
              (setcol "MarketDaily"
                 (group_pct_change (col_Ticker df) (col_DlyClose df)) df))
      as Hsame by (apply same_outside_setcol; [apply list_elem_of_here|done]).
    split; [|intros _; split; [done|split; [done|by apply getcol_setcol_eq]]].
    eapply same_outside_weaken; [|apply Hsame].
    intros c Hc. apply list_elem_of_singleton in Hc as ->.
    apply list_elem_of_here.
  - pose proof (length_getcol _ _ _ Hp) as Lp.
    rewrite (panel_returns_run df position Hp). cbv zeta. simpl.
    destruct (length_panel_returns_columns df position Lp)
      as (L1 & L2 & L3 & L4).
    split; [by apply same_outside_returns_frame|]. intros _. split; [done|].
    destruct (returns_frame_columns _ _ _ _ df L1 L2 L3 L4)
      as (H1 & H2 & H3 & H4 & _).
    intros c Hc.
    repeat (apply elem_of_cons in Hc as [->|Hc]; [eauto|]).
    by apply elem_of_nil in Hc.
Qed.

Lemma panel_returns_effect_witness :
  spec_example ≠ [] ∧
  getcol "Position" spec_example = inl AttributeError ∧
  (panel_returns spec_example).1 = inl AttributeError ∧
  same_outside ["MarketDaily"] spec_example (panel_returns spec_example).2 ∧
  getcol "MarketDaily" (panel_returns spec_example).2
  = inr (group_pct_change (col_Ticker spec_example)
           (col_DlyClose spec_example)).
Proof.
  assert (spec_example ≠ []) as Hne by discriminate.
  split; [exact Hne|]. split; [reflexivity|].
  pose proof (proj2 (panel_returns_effect spec_example) Hne) as H.
  change (getcol "Position" spec_example) with
    (inl AttributeError : result (list cell)) in H.
  exact H.
Defined.

Lemma ema_strategy_fast_rejected fw sw meta :
  fw < 1 → ema_strategy fw sw meta = (inl ValueError, meta).
Proof.
  intros H. unfold ema_strategy. run_step.
  unfold ewm_mean. by rewrite (proj2 (Z.ltb_lt fw 1)).
Qed.

Lemma ema_strategy_slow_rejected fw sw meta fast :
  ewm_mean fw (col_DlyClose meta) = inr fast → sw < 1 →
  ema_strategy fw sw meta = (inl ValueError, setcol "FastEMA" fast meta).
Proof.
  intros Hf Hsw. unfold ema_strategy. run_step.
  rewrite Hf. cbv beta iota.
  unfold ewm_mean at 1. by rewrite (proj2 (Z.ltb_lt sw 1)).
Qed.

Lemma ema_strategy_same_outside meta fw sw :
  same_outside
    ["FastEMA"; "SlowEMA"; "Signal"; "Position"; "StratRet"; "Strategy"]
    meta (ema_strategy fw sw meta).2.
Proof.
  destruct (Z.lt_ge_cases fw 1) as [Hfw|Hfw].
  { rewrite ema_strategy_fast_rejected by done. apply same_outside_refl. }
  destruct (ewm_mean_ok fw (col_DlyClose meta) Hfw) as [fast Hf].
  pose proof (length_ewm_mean _ _ _ Hf) as Lf.
  rewrite length_col_DlyClose in Lf.
  destruct (Z.lt_ge_cases sw 1) as [Hsw|Hsw].
  { rewrite (ema_strategy_slow_rejected _ _ _ _ Hf) by done. simpl.
    apply same_outside_setcol; [apply list_elem_of_here|done]. }
  destruct (ewm_mean_ok sw (col_DlyClose meta) Hsw) as [slow Hs].
  pose proof (length_ewm_mean _ _ _ Hs) as Ls.
  rewrite length_col_DlyClose in Ls.
  rewrite (ema_strategy_run fw sw meta fast slow Hf Hs). cbv zeta.
  assert (same_outside
            ["FastEMA"; "SlowEMA"; "Signal"; "Position"; "StratRet";
             "Strategy"] meta
            (crossover_frame "FastEMA" "SlowEMA" fast slow meta)) as Hcross6.
  { apply (same_outside_weaken ["FastEMA"; "SlowEMA"; "Signal"; "Position"]);
      [|by apply same_outside_crossover_frame_names].
    intros c Hc. rewrite !elem_of_cons in *. tauto. }
  destruct (getcol "MarketDaily" meta) as [e|daily] eqn:Hd; simpl; [done|].
  pose proof (length_getcol _ _ _ Hd) as Ld.
  assert (length (crossover_frame "FastEMA" "SlowEMA" fast slow meta)
          = length meta) as Le by (by apply length_crossover_frame).
  assert (length (shift (crossover_signal fast slow)) = length meta) as Lp
    by (rewrite length_shift, length_crossover_signal; congruence).
  eapply same_outside_trans;
    [|apply same_outside_setcol;
      [do 5 apply list_elem_of_further; apply list_elem_of_here|solve_len]].
  eapply same_outside_trans;
    [|apply same_outside_setcol;
      [do 4 apply list_elem_of_further; apply list_elem_of_here|solve_len]].
  done.
Qed.


(** X3. The exponential cell assigns [FastEMA], [SlowEMA], [Signal],
    [Position], [StratRet] and [Strategy] into [ema] and nothing else,
    whatever the windows: the moving averages and the return columns that
    the panel cells left in the copied frame stay as they were, while its
    [Signal], [Position] and [Strategy] are overwritten.  For a frame with
    at least one row and windows of at least 1, the cell raises nothing
    when the frame has a [MarketDaily] column; without one it raises
    AttributeError at [ema.MarketDaily], after the averages, the signal
    and the position have been assigned and before [StratRet] and
    [Strategy].  (Whether a frame without rows has a [MarketDaily] column
    is not recorded in the model, so nothing is said of it.) *)
Theorem ema_strategy_effect (meta : DataFrame) (fw sw : Z) :
  same_outside
    ["FastEMA"; "SlowEMA"; "Signal"; "Position"; "StratRet"; "Strategy"]
    meta (ema_strategy fw sw meta).2 ∧
  (meta ≠ [] → 1 ≤ fw → 1 ≤ sw →
   match getcol "MarketDaily" meta with
   | inr daily => (ema_strategy fw sw meta).1 = inr ()
   | inl _ =>
     (ema_strategy fw sw meta).1 = inl AttributeError ∧
     same_outside ["FastEMA"; "SlowEMA"; "Signal"; "Position"]
       meta (ema_strategy fw sw meta).2
   end).
Proof.
  split; [apply ema_strategy_same_outside|].
  intros _ Hfw Hsw.
  destruct (ewm_mean_ok fw (col_DlyClose meta) Hfw) as [fast Hf].
  destruct (ewm_mean_ok sw (col_DlyClose meta) Hsw) as [slow Hs].
  pose proof (length_ewm_mean _ _ _ Hf) as Lf.
  pose proof (length_ewm_mean _ _ _ Hs) as Ls.
  rewrite length_col_DlyClose in Lf, Ls.
  rewrite (ema_strategy_run fw sw meta fast slow Hf Hs). cbv zeta.
  destruct (getcol "MarketDaily" meta) as [e|daily] eqn:Hd; simpl; [|done].
  pose proof (getcol_error _ _ _ Hd) as ->.
  split; [done|]. by apply same_outside_crossover_frame_names.
Qed.

Lemma ema_strategy_effect_witness :
  spec_example ≠ [] ∧ 1 ≤ 2 ∧ 1 ≤ 3 ∧
  getcol "MarketDaily" spec_example = inl AttributeError ∧
  (ema_strategy 2 3 spec_example).1 = inl AttributeError ∧
  same_outside ["FastEMA"; "SlowEMA"; "Signal"; "Position"]
    spec_example (ema_strategy 2 3 spec_example).2.
Proof.
  split; [discriminate|]. split; [lia|]. split; [lia|]. split; [reflexivity|].
  pose proof (proj2 (ema_strategy_effect spec_example 2 3)) as H.
  change (getcol "MarketDaily" spec_example) with
    (inl AttributeError : result (list cell)) in H.
  apply H; [discriminate|lia|lia].
Defined.

(** ** When the cells fail *)

Lemma apply_groups_first_fails (f : M DataFrame) name group rest e :
  (f group).1 = inl e → apply_groups f ((name, group) :: rest) = inl e.
Proof. simpl. destruct (f group) as [[e'|g] s]; simpl; by intros [= ->]. Qed.

Lemma group_keys_nonempty df : df ≠ [] → group_keys df ≠ [].
Proof.
  intros Hne Hk. destruct df as [|r df]; [done|].
  assert (Ticker r ∈ group_keys (r :: df)) as Hin
    by (apply elem_of_group_keys; apply list_elem_of_here).
  rewrite Hk in Hin. by apply elem_of_nil in Hin.
Qed.

Lemma panel_sma_rejected fw sw df :
  df ≠ [] → fw < 0 ∨ sw < 0 → panel_sma fw sw df = inl ValueError.
Proof.
  intros Hne Hw. unfold panel_sma, groupby.
  pose proof (group_keys_nonempty df Hne) as Hk.
  destruct (group_keys df) as [|k ks]; [done|].
  cbn [map].
  rewrite (apply_groups_first_fails _ _ _ _ ValueError); [done|].
  destruct (Z.lt_ge_cases fw 0) as [Hfw|Hfw].
  - by rewrite calculate_sma_fast_rejected.
  - rewrite calculate_sma_slow_rejected; [done|done|lia].
Qed.

(** X4. The group-wise cell returns exactly when the panel is non-empty and
    neither window is negative, and then with as many rows as the panel.
    Otherwise it raises ValueError: from [pd.concat] for an empty panel
    (there is no group to concatenate), from [rolling] for a negative
    window. *)
Theorem panel_sma_outcome (df : DataFrame) (fw sw : Z) :
  match panel_sma fw sw df with
  | inr out => df ≠ [] ∧ 0 ≤ fw ∧ 0 ≤ sw ∧ length out = length df
  | inl e => e = ValueError ∧ (df = [] ∨ fw < 0 ∨ sw < 0)
  end.
Proof.
  destruct df as [|r df]; [by (split; [|left])|].
  destruct (Z.lt_ge_cases fw 0) as [Hfw|Hfw].
  { rewrite panel_sma_rejected by (done || by left). split; [done|]. auto. }
  destruct (Z.lt_ge_cases sw 0) as [Hsw|Hsw].
  { rewrite panel_sma_rejected by (done || by right). split; [done|]. auto. }
  rewrite panel_sma_run by done.
  repeat split; try done. by apply length_panel_frame.
Qed.

Lemma col_Ticker_panel_frame_Permutation fw sw df :
  0 ≤ fw → 0 ≤ sw → col_Ticker (panel_frame fw sw df) ≡ₚ col_Ticker df.
Proof.
  intros Hfw Hsw.
  assert (col_Ticker (panel_frame fw sw df)
          = Ticker <$> concat ((λ k, rows_of k df) <$> group_keys df)) as ->.
  { unfold panel_frame.
    change (col_Ticker (concat ?x)) with (Ticker <$> concat x).
    rewrite !(fmap_concat Ticker), <- !list_fmap_compose.
    f_equal. apply list_fmap_ext. intros _ k _. simpl.
    by apply (col_Ticker_sma_frame fw sw). }
  unfold col_Ticker.
  change (map Ticker df) with (Ticker <$> df). f_equiv.
  apply concat_groups_Permutation;
    [apply NoDup_group_keys|apply Forall_Ticker_group_keys].
Qed.

Lemma elem_of_col_Ticker_panel fw sw df out name :
  0 ≤ fw → 0 ≤ sw → df ≠ [] → panel fw sw df = inr out →
  name ∈ col_Ticker out ↔ name ∈ col_Ticker df.
Proof.
  intros Hfw Hsw Hne Hout. rewrite panel_run in Hout by done.
  injection Hout as <-.
  destruct (getcol_Position_panel_frame fw sw df Hfw Hsw) as [position Hp].
  rewrite (col_Ticker_panel_returns _ _ Hp).
  by rewrite col_Ticker_panel_frame_Permutation.
Qed.

(** X5. The notebook, from the loaded panel to the frame [ema], returns
    exactly when both windows are at least 1 and the panel has rows of
    META, and then [ema] holds the rows of META, in the order of the
    panel, with their day and close.  It raises KeyError
    (from [get_group]) when a non-empty panel without META is given
    windows that [rolling] accepts, and ValueError in every other case:
    an empty panel, a negative window, or a zero window when there are
    rows of META (from [ewm]).  It never raises AttributeError. *)
Theorem notebook_outcome (df : DataFrame) (fw sw : Z) :
  match notebook fw sw df with
  | inr ema =>
    1 ≤ fw ∧ 1 ≤ sw ∧ "META" ∈ col_Ticker df ∧
    base <$> ema = base <$> rows_of "META" df
  | inl KeyError => df ≠ [] ∧ 0 ≤ fw ∧ 0 ≤ sw ∧ "META" ∉ col_Ticker df
  | inl ValueError =>
    df = [] ∨ fw < 0 ∨ sw < 0 ∨ ("META" ∈ col_Ticker df ∧ (fw = 0 ∨ sw = 0))
  | inl AttributeError => False
  end.
Proof.
  unfold notebook.
  destruct df as [|r df]; [by left|].
  set (df0 := r :: df). assert (df0 ≠ []) as Hne by done. clearbody df0.
  clear r df. rename df0 into df.
  destruct (Z.lt_ge_cases fw 0) as [Hfw|Hfw].
  { unfold panel. rewrite panel_sma_rejected by (done || by left). auto. }
  destruct (Z.lt_ge_cases sw 0) as [Hsw|Hsw].
  { unfold panel. rewrite panel_sma_rejected by (done || by right). auto. }
  pose proof (panel_run fw sw df Hfw Hsw Hne) as Hout. rewrite Hout.
  set (out := (panel_returns (panel_frame fw sw df)).2) in *.
  pose proof (elem_of_col_Ticker_panel fw sw df out "META" Hfw Hsw Hne Hout)
    as Hmeta.
  unfold get_group. destruct (decide ("META" ∈ col_Ticker out)) as [Hin|Hin];
    [|by rewrite Hmeta in Hin].
  apply Hmeta in Hin.
  destruct (ewm_mean fw (col_DlyClose (rows_of "META" out))) as [e|fast] eqn:Hf.
  { unfold ewm_mean in Hf. destruct (Z.ltb_spec fw 1); [|done].
    unfold exec. rewrite ema_strategy_fast_rejected by done.
    injection Hf as <-. right. right. right. split; [done|]. left. lia. }
  assert (1 ≤ fw) as Hfw1.
  { unfold ewm_mean in Hf. by destruct (Z.ltb_spec fw 1). }
  destruct (Z.lt_ge_cases sw 1) as [Hsw1|Hsw1].
  { unfold exec. rewrite (ema_strategy_slow_rejected _ _ _ _ Hf) by done.
    right. right. right. split; [done|]. right. lia. }
  destruct (panel_asset_columns fw sw df "META" Hfw Hsw Hin)
    as (out' & Hout' & Hd & _).
  assert (out' = out) as -> by congruence.
  destruct (ema_strategy_returns (rows_of "META" out) fw sw _ Hfw1 Hsw1 Hd)
    as (ema & position & Hrun & Hlen & _).
  unfold exec. rewrite Hrun.
  repeat split; try done.
  assert (base <$> ema = base <$> rows_of "META" out) as ->.
  { apply (same_outside_base
             ["FastEMA"; "SlowEMA"; "Signal"; "Position"; "StratRet";
              "Strategy"]).
    replace ema with (ema_strategy fw sw (rows_of "META" out)).2
      by (by rewrite Hrun).
    apply ema_strategy_same_outside. }
  destruct (rows_of_panel fw sw df "META" Hfw Hsw Hin) as (out2 & Hout2 & Hr).
  assert (out2 = out) as -> by congruence. rewrite Hr.
  cbv zeta.
  destruct (length_asset_columns fw sw (col_DlyClose (rows_of "META" df)))
    as (L1 & L2 & L3 & L4).
  pose proof (length_sma_frame fw sw (rows_of "META" df) Hfw Hsw) as Ls.
  rewrite length_col_DlyClose in *.
  rewrite (same_outside_base
             ["MarketDaily"; "StrategyDaily"; "Market"; "Strategy"]
             (sma_frame fw sw (rows_of "META" df)))
    by (apply same_outside_returns_frame; congruence).
  by apply base_sma_frame.
Qed.

(** ** Running a cell again *)

Lemma set_extra_id c v r : extra r !! c = Some v → set_extra c v r = r.
Proof.
  intros H. destruct r as [t d q m]. unfold set_extra. simpl in *.
  f_equal. by apply insert_id.
Qed.

Lemma setcol_id c vs df : getcol c df = inr vs → setcol c vs df = df.
Proof.
  revert vs. induction df as [|r df IH]; intros vs; simpl.
  - by intros [= <-].
  - destruct (extra r !! c) as [v|] eqn:Hv; [|discriminate].
    destruct (getcol c df) as [e|ws]; [discriminate|].
    intros [= <-]. unfold setcol in *. simpl.
    by rewrite (set_extra_id _ _ _ Hv), (IH ws eq_refl).
Qed.

Lemma setcol_setcol c vs ws df :
  length ws = length df →
  setcol c vs (setcol c ws df) = setcol c vs df.
Proof.
  unfold setcol. revert vs ws.
  induction df as [|r df IH]; intros vs [|w ws] Hlen;
    try discriminate; [done|].
  destruct vs as [|v vs]; [done|].
  simpl in *. f_equal; [|apply IH; lia].
  unfold set_extra. simpl. f_equal. apply insert_insert_eq.
Qed.

Lemma setcol_comm c c' vs ws df :
  c ≠ c' → setcol c vs (setcol c' ws df) = setcol c' ws (setcol c vs df).
Proof.
  intros Hne. unfold setcol. revert vs ws.
  induction df as [|r df IH]; intros vs ws; [done|].
  destruct vs as [|v vs], ws as [|w ws]; try done.
  simpl. f_equal; [|apply IH].
  unfold set_extra. simpl. f_equal. by apply insert_insert_ne.
Qed.

Lemma crossover_frame_again fast slow fast' slow' df :
  length fast = length df → length slow = length df →
  length fast' = length df → length slow' = length df →
  crossover_frame "FastMA" "SlowMA" fast' slow'
    (crossover_frame "FastMA" "SlowMA" fast slow df)
  = crossover_frame "FastMA" "SlowMA" fast' slow' df.
Proof.
  intros Lf Ls Lf' Ls'. unfold crossover_frame.
  set (sig0 := np_where_const (gt fast slow) (Int 1) (Int (-1))).
  set (sig := crossover_signal fast slow).
  set (sig0' := np_where_const (gt fast' slow') (Int 1) (Int (-1))).
  set (sig' := crossover_signal fast' slow').
  assert (length sig0 = length df) as L0 by (subst sig0; solve_len).
  assert (length sig = length df) as L1
    by (subst sig; rewrite length_crossover_signal; lia).
  assert (length sig0' = length df) as L0' by (subst sig0'; solve_len).
  assert (length sig' = length df) as L1'
    by (subst sig'; rewrite length_crossover_signal; lia).
  (* FastMA *)
  rewrite (setcol_comm "FastMA" "Position") by done.
  rewrite !(setcol_comm "FastMA" "Signal") by done.
  rewrite (setcol_comm "FastMA" "SlowMA") by done.
  rewrite (setcol_setcol "FastMA") by done.
  (* SlowMA *)
  rewrite (setcol_comm "SlowMA" "Position") by done.
  rewrite !(setcol_comm "SlowMA" "Signal") by done.
  rewrite (setcol_setcol "SlowMA") by solve_len.
  (* Signal, twice *)
  rewrite (setcol_comm "Signal" "Position" sig0') by done.
  rewrite !(setcol_setcol "Signal" sig0') by solve_len.
  rewrite (setcol_comm "Signal" "Position" sig') by done.
  (* Position *)
  rewrite (setcol_setcol "Position") by solve_len.
  done.
Qed.

(** X6. A call of [calculate_sma] on a frame that an earlier call has
    returned overwrites the four columns: the result is the one of
    calling it on the original frame, whatever the windows of the earlier
    call.  In particular a second call with the same windows returns the
    frame unchanged. *)
Theorem calculate_sma_again (dfi : DataFrame) (fw sw fw' sw' : Z) :
  0 ≤ fw → 0 ≤ sw → 0 ≤ fw' → 0 ≤ sw' →
  ∃ dfo dfo',
    calculate_sma fw sw dfi = (inr dfo, dfo) ∧
    calculate_sma fw' sw' dfi = (inr dfo', dfo') ∧
    calculate_sma fw' sw' dfo = (inr dfo', dfo') ∧
    calculate_sma fw' sw' dfo' = (inr dfo', dfo').
Proof.
  intros Hfw Hsw Hfw' Hsw'.
  assert (∀ a b, 0 ≤ a → 0 ≤ b →
            sma_frame fw' sw' (sma_frame a b dfi) = sma_frame fw' sw' dfi)
    as Hagain.
  { intros a b Ha Hb.
    rewrite (sma_frame_crossover_frame fw' sw' (sma_frame a b dfi)) by done.
    rewrite col_DlyClose_sma_frame by done.
    rewrite (sma_frame_crossover_frame a b dfi) by done.
    rewrite (sma_frame_crossover_frame fw' sw' dfi) by done.
    apply crossover_frame_again;
      by rewrite length_roll_mean, length_col_DlyClose. }
  exists (sma_frame fw sw dfi), (sma_frame fw' sw' dfi).
  split; [by apply calculate_sma_sma_frame|].
  split; [by apply calculate_sma_sma_frame|].
  split.
  - rewrite calculate_sma_sma_frame by done. by rewrite Hagain.
  - rewrite calculate_sma_sma_frame by done. by rewrite Hagain.
Qed.

Lemma calculate_sma_again_witness :
  0 ≤ 2 ∧ 0 ≤ 3 ∧ 0 ≤ 1 ∧ 0 ≤ 4 ∧
  ∃ dfo dfo',
    calculate_sma 2 3 spec_example = (inr dfo, dfo) ∧
    calculate_sma 1 4 spec_example = (inr dfo', dfo') ∧
    calculate_sma 1 4 dfo = (inr dfo', dfo') ∧
    calculate_sma 1 4 dfo' = (inr dfo', dfo').
Proof.
  split; [lia|]. split; [lia|]. split; [lia|]. split; [lia|].
  apply calculate_sma_again; lia.
Defined.

Lemma elem_of_concat_replicate (n : string → nat) ks t :
  t ∈ concat ((λ k, replicate (n k) k) <$> ks) → t ∈ ks.
Proof.
  induction ks as [|k ks IH]; csimpl; [done|].
  rewrite elem_of_app. intros [Ht|Ht].
  - apply elem_of_replicate in Ht as [-> _]. apply list_elem_of_here.
  - apply list_elem_of_further. by apply IH.
Qed.

(** A frame whose tickers come in blocks, one block per key, is the
    concatenation of its groups. *)
Lemma concat_groups_blocks (n : string → nat) keys X :
  NoDup keys →
  col_Ticker X = concat ((λ k, replicate (n k) k) <$> keys) →
  concat ((λ k, rows_of k X) <$> keys) = X.
Proof.
  intros Hnd. revert X.
  induction Hnd as [|k ks Hk Hnd IH]; intros X HX; csimpl in *.
  - by destruct X.
  - assert (col_Ticker (take (n k) X) = replicate (n k) k) as H1.
    { unfold col_Ticker in *.
      change (map Ticker ?x) with (Ticker <$> x) in *.
      rewrite fmap_take, HX.
      rewrite take_app_length'; [done|]. by rewrite length_replicate. }
    assert (col_Ticker (drop (n k) X)
            = concat ((λ k, replicate (n k) k) <$> ks)) as H2.
    { unfold col_Ticker in *.
      change (map Ticker ?x) with (Ticker <$> x) in *.
      rewrite fmap_drop, HX.
      rewrite drop_app_length'; [done|]. by rewrite length_replicate. }
    assert (Forall (λ r, Ticker r = k) (take (n k) X)) as Hall1.
    { apply (Forall_Ticker_col (λ t, t = k)). rewrite H1.
      apply Forall_replicate. done. }
    assert (Forall (λ r, Ticker r ∈ ks) (drop (n k) X)) as Hall2.
    { apply (Forall_Ticker_col (λ t, t ∈ ks)). rewrite H2.
      apply Forall_forall. intros t. apply elem_of_concat_replicate. }
    transitivity (take (n k) X ++ drop (n k) X); [|apply take_drop].
    f_equal.
    + rewrite <- (take_drop (n k) X) at 1. unfold rows_of.
      rewrite filter_app. fold (rows_of k (take (n k) X)).
      fold (rows_of k (drop (n k) X)).
      rewrite (rows_of_all _ _ Hall1), rows_of_none; [by rewrite app_nil_r|].
      eapply Forall_impl; [apply Hall2|]. simpl.
      intros r Hr Heq. by rewrite Heq in Hr.
    + rewrite <- (IH (drop (n k) X) H2).
      f_equal. apply list_fmap_ext. intros i k' Hk'.
      apply list_elem_of_lookup_2 in Hk'.
      rewrite <- (take_drop (n k) X) at 1. unfold rows_of.
      rewrite filter_app. fold (rows_of k' (take (n k) X)).
      rewrite rows_of_none; [done|].
      eapply Forall_impl; [apply Hall1|]. simpl.
      intros r Hr Heq. rewrite Hr in Heq. by subst.
Qed.

Lemma col_Ticker_rows_of_replicate name df :
  col_Ticker (rows_of name df) = replicate (length (rows_of name df)) name.
Proof.
  pose proof (Forall_rows_of name df) as H.
  induction H as [|r l Hr _ IH]; [done|]. simpl. by rewrite Hr, IH.
Qed.

Lemma col_Ticker_panel_frame fw sw df :
  0 ≤ fw → 0 ≤ sw →
  col_Ticker (panel_frame fw sw df)
  = concat ((λ k, replicate (length (rows_of k df)) k) <$> group_keys df).
Proof.
  intros Hfw Hsw. unfold panel_frame.
  change (col_Ticker (concat ?x)) with (Ticker <$> concat x).
  rewrite (fmap_concat Ticker), <- list_fmap_compose.
  f_equal. apply list_fmap_ext. intros _ k _. simpl.
  change (Ticker <$> ?x) with (col_Ticker x).
  rewrite (col_Ticker_sma_frame fw sw) by done.
  apply col_Ticker_rows_of_replicate.
Qed.

Lemma group_keys_Permutation df df' :
  col_Ticker df ≡ₚ col_Ticker df' → group_keys df = group_keys df'.
Proof.
  intros Hp.
  apply (Sorted_unique str_le); try apply Sorted_group_keys.
  apply NoDup_Permutation; try apply NoDup_group_keys.
  intros k. by rewrite !elem_of_group_keys, Hp.
Qed.

(** A frame that already holds the columns of a crossover is left as it
    is by the five assignments. *)
Lemma crossover_frame_fixed fast slow df :
  getcol "FastMA" df = inr fast → getcol "SlowMA" df = inr slow →
  getcol "Signal" df = inr (crossover_signal fast slow) →
  getcol "Position" df = inr (shift (crossover_signal fast slow)) →
  crossover_frame "FastMA" "SlowMA" fast slow df = df.
Proof.
  intros Hf Hs Hsig Hp. unfold crossover_frame.
  pose proof (length_getcol _ _ _ Hf) as Lf.
  pose proof (length_getcol _ _ _ Hs) as Ls.
  rewrite (setcol_id _ _ _ Hf), (setcol_id _ _ _ Hs).
  rewrite setcol_setcol by solve_len_unfolded.
  by rewrite (setcol_id _ _ _ Hsig), (setcol_id _ _ _ Hp).
Qed.

Lemma returns_frame_fixed daily sdaily market strategy df :
  getcol "MarketDaily" df = inr daily → getcol "StrategyDaily" df = inr sdaily →
  getcol "Market" df = inr market → getcol "Strategy" df = inr strategy →
  returns_frame daily sdaily market strategy df = df.
Proof.
  intros H1 H2 H3 H4. unfold returns_frame.
  by rewrite (setcol_id _ _ _ H1), (setcol_id _ _ _ H2), (setcol_id _ _ _ H3),
    (setcol_id _ _ _ H4).
Qed.

Lemma panel_inr fw sw df out :
  panel fw sw df = inr out → df ≠ [] ∧ 0 ≤ fw ∧ 0 ≤ sw.
Proof.
  unfold panel. intros H.
  destruct df as [|r df]; [discriminate|].
  destruct (Z.lt_ge_cases fw 0) as [Hfw|Hfw].
  { rewrite panel_sma_rejected in H by (done || by left). discriminate. }
  destruct (Z.lt_ge_cases sw 0) as [Hsw|Hsw].
  { rewrite panel_sma_rejected in H by (done || by right). discriminate. }
  done.
Qed.

Lemma sma_frame_columns fw sw dfi :
  0 ≤ fw → 0 ≤ sw →
  let fast := roll_mean (Z.to_nat fw) (col_DlyClose dfi) in
  let slow := roll_mean (Z.to_nat sw) (col_DlyClose dfi) in
  getcol "FastMA" (sma_frame fw sw dfi) = inr fast ∧
  getcol "SlowMA" (sma_frame fw sw dfi) = inr slow ∧
  getcol "Signal" (sma_frame fw sw dfi) = inr (crossover_signal fast slow) ∧
  getcol "Position" (sma_frame fw sw dfi)
  = inr (shift (crossover_signal fast slow)).
Proof.
  intros Hfw Hsw fast slow.
  rewrite sma_frame_crossover_frame by done. fold fast slow.
  assert (length fast = length dfi) as Lf
    by (subst fast; by rewrite length_roll_mean, length_col_DlyClose).
  assert (length slow = length dfi) as Ls
    by (subst slow; by rewrite length_roll_mean, length_col_DlyClose).
  rewrite crossover_frame_fast, crossover_frame_slow, crossover_frame_signal,
    crossover_frame_position by done.
  done.
Qed.

(** The frame of one asset after both panel cells is left as it is by
    [calculate_sma]. *)
Lemma sma_frame_returns_frame fw sw dfi daily sdaily market strategy :
  0 ≤ fw → 0 ≤ sw →
  length daily = length dfi → length sdaily = length dfi →
  length market = length dfi → length strategy = length dfi →
  sma_frame fw sw
    (returns_frame daily sdaily market strategy (sma_frame fw sw dfi))
  = returns_frame daily sdaily market strategy (sma_frame fw sw dfi).
Proof.
  intros Hfw Hsw L1 L2 L3 L4.
  pose proof (length_sma_frame fw sw dfi Hfw Hsw) as Ls.
  set (R := returns_frame daily sdaily market strategy (sma_frame fw sw dfi)).
  destruct (returns_frame_columns daily sdaily market strategy
              (sma_frame fw sw dfi)) as (_ & _ & _ & _ & Hother);
    try congruence.
  destruct (sma_frame_columns fw sw dfi Hfw Hsw) as (Hf & Hs & Hsig & Hp).
  assert (col_DlyClose R = col_DlyClose dfi) as Hc.
  { subst R. unfold returns_frame.
    rewrite !col_DlyClose_setcol by solve_len.
    by apply col_DlyClose_sma_frame. }
  rewrite (sma_frame_crossover_frame fw sw R) by done. rewrite Hc.
  apply crossover_frame_fixed; subst R; rewrite Hother; try done;
    rewrite !not_elem_of_cons; repeat split; try discriminate;
    apply not_elem_of_nil.
Qed.

(** X7. Running the two panel cells again on their own output changes
    nothing: the output is already grouped by ticker, and every column is
    recomputed to the value it has. *)
Theorem panel_again (df out : DataFrame) (fw sw : Z) :
  panel fw sw df = inr out → panel fw sw out = inr out.
Proof.
  intros Hout. destruct (panel_inr fw sw df out Hout) as (Hne & Hfw & Hsw).
  pose proof Hout as Hout0. rewrite panel_run in Hout by done.
  injection Hout as Hout.
  destruct (getcol_Position_panel_frame fw sw df Hfw Hsw) as [position Hp].
  pose proof (length_getcol _ _ _ Hp) as Lp.
  set (P := panel_frame fw sw df) in *.
  rewrite (panel_returns_run P position Hp) in Hout. cbv zeta in Hout.
  simpl in Hout.
  destruct (length_panel_returns_columns P position Lp) as (L1 & L2 & L3 & L4).
  cbv zeta in L1, L2, L3, L4.
  set (daily := group_pct_change (col_Ticker P) (col_DlyClose P)) in *.
  set (sdaily := mul position daily) in *.
  set (market := group_cumprod (col_Ticker P) (one_plus daily)) in *.
  set (strategy := group_cumprod (col_Ticker P) (one_plus sdaily)) in *.
  destruct (returns_frame_columns daily sdaily market strategy P L1 L2 L3 L4)
    as (H1 & H2 & H3 & H4 & Hother).
  rewrite Hout in H1, H2, H3, H4, Hother.
  assert (col_Ticker out = col_Ticker P) as HT.
  { rewrite <- Hout. unfold returns_frame.
    by rewrite !col_Ticker_setcol by solve_len. }
  assert (col_DlyClose out = col_DlyClose P) as HC.
  { rewrite <- Hout. unfold returns_frame.
    by rewrite !col_DlyClose_setcol by solve_len. }
  assert (length out = length df) as Lout.
  { rewrite <- (length_col_Ticker out), HT, length_col_Ticker.
    by apply length_panel_frame. }
  assert (out ≠ []) as Hne' by (destruct out, df; done).
  assert (panel_frame fw sw out = out) as Hfix.
  { unfold panel_frame.
    rewrite (group_keys_Permutation out df)
      by (rewrite HT; by apply col_Ticker_panel_frame_Permutation).
    transitivity (concat ((λ k, rows_of k out) <$> group_keys df));
      [|apply (concat_groups_blocks (λ k, length (rows_of k df)));
        [apply NoDup_group_keys
        |rewrite HT; by apply col_Ticker_panel_frame]].
    f_equal. apply list_fmap_ext. intros i k Hk.
    apply list_elem_of_lookup_2, elem_of_group_keys in Hk.
    destruct (rows_of_panel fw sw df k Hfw Hsw Hk) as (out' & Hout' & Hr).
    assert (out' = out) as -> by congruence.
    cbv zeta in Hr. rewrite Hr.
    destruct (length_asset_columns fw sw (col_DlyClose (rows_of k df)))
      as (A1 & A2 & A3 & A4).
    rewrite length_col_DlyClose in *.
    by apply sma_frame_returns_frame. }
  unfold panel, exec. rewrite panel_sma_run, Hfix by done.
  assert (getcol "Position" out = inr position) as Hp'.
  { rewrite Hother; [done|].
    rewrite !not_elem_of_cons; repeat split; try discriminate.
    apply not_elem_of_nil. }
  rewrite (panel_returns_run out position Hp'). cbv zeta.
  rewrite HT, HC. fold daily sdaily market strategy.
  by rewrite returns_frame_fixed.
Qed.

Lemma panel_again_witness :
  ∃ out, panel 2 3 two_assets = inr out ∧ panel 2 3 out = inr out.
Proof.
  destruct (panel_asset_columns 2 3 two_assets "META") as (out & Hout & _);
    [lia|lia|apply META_in_two_assets|].
  exists out. split; [exact Hout|]. exact (panel_again _ _ _ _ Hout).
Defined.

(** ** Where the strategy is flat, short or long *)

Lemma Qgtb_irrefl a : Qgtb a a = false.
Proof. apply Qgtb_false. apply Qle_refl. Qed.

Lemma fgt_irrefl x : fgt x x = false.
Proof. destruct x as [a|]; [apply Qgtb_irrefl|done]. Qed.

Lemma signal_of_same x : signal_of x x = if isna x then 0 else -1.
Proof. unfold signal_of. by rewrite fgt_irrefl. Qed.

Lemma ewm_loop_head alpha c (qs : list Q) :
  ewm_loop alpha NaN 1%Q (Some <$> (c :: qs)) !! 0%nat = Some (Some c).
Proof. done. Qed.

(** X9. In the exponential cell both averages start at the first close,
    so the first signal is a tie and is -1 whatever the windows: the
    strategy is short on the second row of every series. *)
Theorem ema_first_signal_is_short (meta : DataFrame) (fw sw : Z) :
  1 ≤ fw → 1 ≤ sw → meta ≠ [] →
  crossover_columns "FastEMA" "SlowEMA" (ema_strategy fw sw meta).2
    (λ fast slow signal position,
       (∃ r, meta !! 0%nat = Some r ∧
             fast !! 0%nat = Some (Float (Some (DlyClose r))) ∧
             slow !! 0%nat = Some (Float (Some (DlyClose r)))) ∧
       signal !! 0%nat = Some (Int (-1)) ∧
       ((1 < length meta)%nat →
        position !! 1%nat = Some (Float (Some (inject_Z (-1)))))).
Proof.
  intros Hfw Hsw Hne.
  destruct (ema_strategy_columns meta fw sw Hfw Hsw) as [Hlen Hcols].
  revert Hcols. apply crossover_columns_impl.
  intros fast slow signal position Lf Ls _ _ (Hf & Hs & -> & ->).
  destruct meta as [|r meta]; [done|].
  assert (∀ span ys, ewm_mean span (col_DlyClose (r :: meta)) = inr ys →
            ys !! 0%nat = Some (Float (Some (DlyClose r)))) as Hhead.
  { intros span ys. unfold ewm_mean. destruct (span <? 1); [discriminate|].
    by intros [= <-]. }
  pose proof (Hhead _ _ Hf) as Hf0. pose proof (Hhead _ _ Hs) as Hs0.
  pose proof (crossover_signal_lookup fast slow 0 _ _ Hf0 Hs0) as Hsig.
  simpl in Hsig. rewrite signal_of_same in Hsig. simpl in Hsig.
  split; [by exists r|]. split; [done|].
  intros Hlen1. rewrite (shift_lookup_S _ 0 _ Hsig); [done|].
  rewrite length_crossover_signal, Lf, Hlen; [done|congruence].
Qed.

Lemma ema_first_signal_is_short_witness :
  1 ≤ 50 ∧ 1 ≤ 200 ∧ spec_example ≠ [] ∧
  crossover_columns "FastEMA" "SlowEMA" (ema_strategy 50 200 spec_example).2
    (λ fast slow signal position,
       (∃ r, spec_example !! 0%nat = Some r ∧
             fast !! 0%nat = Some (Float (Some (DlyClose r))) ∧
             slow !! 0%nat = Some (Float (Some (DlyClose r)))) ∧
       signal !! 0%nat = Some (Int (-1)) ∧
       ((1 < length spec_example)%nat →
        position !! 1%nat = Some (Float (Some (inject_Z (-1)))))).
Proof.
  split; [lia|]. split; [lia|]. split; [discriminate|].
  apply ema_first_signal_is_short; [lia|lia|discriminate].
Defined.

(** X10. With equal windows the two averages are the same column, every
    comparison is a tie and the strategy is never long: the signal of
    [calculate_sma] is 0 before index [window - 1] and -1 from there on,
    and the signal of the exponential cell is -1 on every row. *)
Theorem equal_windows_never_long (dfi : DataFrame) (w : Z) :
  1 ≤ w →
  (∃ dfo, calculate_sma w w dfi = (inr dfo, dfo) ∧
     crossover_columns "FastMA" "SlowMA" dfo (λ fast slow signal _,
       fast = slow ∧
       ∀ i : nat, (i < length dfi)%nat →
         signal !! i = Some (Int (if Z.of_nat i <? w - 1 then 0 else -1)))) ∧
  crossover_columns "FastEMA" "SlowEMA" (ema_strategy w w dfi).2
    (λ fast slow signal _,
       fast = slow ∧
       ∀ i : nat, (i < length dfi)%nat → signal !! i = Some (Int (-1))).
Proof.
  intros Hw. split.
  - destruct (calculate_sma_columns dfi w w) as (dfo & Hrun & Hlen & _ & _ & Hcols);
      [lia..|].
    exists dfo. split; [done|].
    revert Hcols. apply crossover_columns_impl.
    intros fast slow signal position Lf Ls _ _ (Hf & Hs & -> & _).
    assert (fast = slow) as -> by congruence. split; [done|].
    intros i Hi.
    destruct (rolling_mean_defined_from w dfi slow Hw Hs i) as [Hnan Hdef];
      [by rewrite length_fmap|].
    destruct (Z.ltb_spec (Z.of_nat i) (w - 1)) as [Hlt|Hge].
    + rewrite (crossover_signal_lookup slow slow i _ _ (Hnan Hlt) (Hnan Hlt)).
      by rewrite signal_of_same.
    + rewrite (crossover_signal_lookup slow slow i _ _ (Hdef Hge) (Hdef Hge)).
      by rewrite signal_of_same.
  - destruct (ema_strategy_columns dfi w w Hw Hw) as [Hlen Hcols].
    revert Hcols. apply crossover_columns_impl.
    intros fast slow signal position Lf Ls _ _ (Hf & Hs & -> & _).
    assert (fast = slow) as -> by congruence. split; [done|].
    intros i Hi.
    destruct (ewm_mean_lookup _ _ _ i Hs Hi) as [q Hq].
    rewrite (crossover_signal_lookup slow slow i _ _ Hq Hq).
    by rewrite signal_of_same.
Qed.

Lemma equal_windows_never_long_witness :
  1 ≤ 3 ∧
  (∃ dfo, calculate_sma 3 3 spec_example = (inr dfo, dfo) ∧
     crossover_columns "FastMA" "SlowMA" dfo (λ fast slow signal _,
       fast = slow ∧
       ∀ i : nat, (i < length spec_example)%nat →
         signal !! i = Some (Int (if Z.of_nat i <? 3 - 1 then 0 else -1)))) ∧
  crossover_columns "FastEMA" "SlowEMA" (ema_strategy 3 3 spec_example).2
    (λ fast slow signal _,
       fast = slow ∧
       ∀ i : nat, (i < length spec_example)%nat →
         signal !! i = Some (Int (-1))).
Proof.
  split; [lia|]. apply equal_windows_never_long. lia.
Defined.

(** ** The values of the averages *)

Lemma ewm_step_eq (alpha w c : Q) :
  ((1 * (1 - alpha) * w + alpha * c) / (1 * (1 - alpha) + alpha)
   == (1 - alpha) * w + alpha * c)%Q.
Proof. field. intros H. ring_simplify in H. discriminate. Qed.

Lemma ewm_loop_recurrence alpha (qs : list Q) w (i : nat) c :
  qs !! i = Some c →
  ∃ y y',
    match i with
    | O => Some (Some w)
    | S j => ewm_loop alpha (Some w) 1%Q (Some <$> qs) !! j
    end = Some (Some y) ∧
    ewm_loop alpha (Some w) 1%Q (Some <$> qs) !! i = Some (Some y') ∧
    (y' == (1 - alpha) * y + alpha * c)%Q.
Proof.
  revert w i. induction qs as [|c0 qs IH]; intros w i Hc; [done|].
  destruct i as [|j].
  - injection Hc as ->. eexists w, _. split; [done|]. split; [done|].
    apply ewm_step_eq.
  - simpl in Hc. csimpl.
    destruct (IH ((1 * (1 - alpha) * w + alpha * c0)
                  / (1 * (1 - alpha) + alpha))%Q j Hc)
      as (y & y' & Hy & Hy' & Heq).
    exists y, y'. split; [|split; [exact Hy'|exact Heq]].
    destruct j as [|j']; [done|]. exact Hy.
Qed.

Lemma ewm_mean_recurrence span df avg :
  ewm_mean span (col_DlyClose df) = inr avg →
  ema_recurrence span (DlyClose <$> df) avg.
Proof.
  unfold ewm_mean. destruct (span <? 1); [discriminate|].
  intros [= <-]. rewrite to_float_col_DlyClose. split.
  - intros c Hc. destruct (DlyClose <$> df) as [|c0 qs]; [done|].
    by injection Hc as ->.
  - intros i c Hc. destruct (DlyClose <$> df) as [|c0 qs]; [done|].
    simpl in Hc. csimpl.
    destruct (ewm_loop_recurrence (2 / (inject_Z span + 1))%Q qs c0 i c Hc)
      as (y & y' & Hy & Hy' & Heq).
    exists y, y'. rewrite list_lookup_fmap, Hy'.
    split; [|split; [done|exact Heq]].
    destruct i as [|j]; simpl in *.
    + by injection Hy as ->.
    + by rewrite list_lookup_fmap, Hy.
Qed.

(** X11. The columns [FastEMA] and [SlowEMA] follow the recurrence of the
    exponential average: the first value is the first close, and each
    later value is [(1 - alpha) * previous + alpha * close] with
    [alpha = 2 / (span + 1)]. *)
Theorem ema_columns_follow_recurrence (meta : DataFrame) (fw sw : Z) :
  1 ≤ fw → 1 ≤ sw →
  crossover_columns "FastEMA" "SlowEMA" (ema_strategy fw sw meta).2
    (λ fast slow _ _,
       ema_recurrence fw (DlyClose <$> meta) fast ∧
       ema_recurrence sw (DlyClose <$> meta) slow).
Proof.
  intros Hfw Hsw.
  destruct (ema_strategy_columns meta fw sw Hfw Hsw) as [Hlen Hcols].
  revert Hcols. apply crossover_columns_impl.
  intros fast slow signal position _ _ _ _ (Hf & Hs & _).
  split; by apply ewm_mean_recurrence.
Qed.

Lemma ema_columns_follow_recurrence_witness :
  1 ≤ 2 ∧ 1 ≤ 3 ∧
  crossover_columns "FastEMA" "SlowEMA" (ema_strategy 2 3 spec_example).2
    (λ fast slow _ _,
       ema_recurrence 2 (DlyClose <$> spec_example) fast ∧
       ema_recurrence 3 (DlyClose <$> spec_example) slow).
Proof.
  split; [lia|]. split; [lia|].
  apply ema_columns_follow_recurrence; lia.
Defined.

(** ** Compounding in the exponential cell *)





(** ** No look-ahead *)

Lemma roll_mean_at_prefix w (xs xs' : list float) i :
  take (S i) xs = take (S i) xs' →
  roll_mean_at w xs i = roll_mean_at w xs' i.
Proof.
  intros H. unfold roll_mean_at. cbv zeta.
  rewrite !take_drop_commute.
  replace (S i - w + (S i - (S i - w)))%nat with (S i) by lia.
  by rewrite H.
Qed.

Lemma ewm_loop_take alpha weighted old_wt (xs : list float) n :
  take n (ewm_loop alpha weighted old_wt xs)
  = ewm_loop alpha weighted old_wt (take n xs).
Proof.
  revert weighted old_wt n.
  induction xs as [|cur rest IH]; intros weighted old_wt n;
    [by destruct n|].
  destruct n as [|n]; [done|].
  simpl. destruct weighted, cur; simpl; by rewrite IH.
Qed.

Lemma ewm_loop_prefix alpha (xs xs' : list float) i :
  take (S i) xs = take (S i) xs' →
  ewm_loop alpha NaN 1%Q xs !! i = ewm_loop alpha NaN 1%Q xs' !! i.
Proof.
  intros H.
  rewrite <- (lookup_take_lt (ewm_loop alpha NaN 1%Q xs) (S i) i) by lia.
  rewrite <- (lookup_take_lt (ewm_loop alpha NaN 1%Q xs') (S i) i) by lia.
  by rewrite !ewm_loop_take, H.
Qed.

Lemma take_prefix {A} (l l' : list A) n m :
  (m ≤ n)%nat → take n l = take n l' → take m l = take m l'.
Proof.
  intros Hm H.
  assert (∀ k : list A, take m k = take m (take n k)) as E
    by (intros k; rewrite take_take; f_equal; lia).
  by rewrite (E l), (E l'), H.
Qed.

Lemma lagged_crossover_prefix (fast slow fast' slow' : list cell) i :
  length slow = length fast → length slow' = length fast' →
  (i < length fast)%nat → (i < length fast')%nat →
  (∀ j, (j < i)%nat → fast !! j = fast' !! j ∧ slow !! j = slow' !! j) →
  shift (crossover_signal fast slow) !! i
  = shift (crossover_signal fast' slow') !! i.
Proof.
  intros L L' Hi Hi' H.
  pose proof (length_crossover_signal fast slow L) as Lc.
  pose proof (length_crossover_signal fast' slow' L') as Lc'.
  destruct i as [|j].
  - rewrite !shift_lookup_0; [done| |]; intros E; rewrite E in *; simpl in *; lia.
  - destruct (H j) as [Hf Hs]; [lia|].
    destruct (lookup_lt_is_Some_2 fast j) as [f Ef]; [lia|].
    destruct (lookup_lt_is_Some_2 slow j) as [s Es]; [lia|].
    rewrite (shift_lookup_S _ j _ (crossover_signal_lookup _ _ _ _ _ Ef Es))
      by lia.
    rewrite Hf in Ef. rewrite Hs in Es.
    by rewrite (shift_lookup_S _ j _ (crossover_signal_lookup _ _ _ _ _ Ef Es))
      by lia.
Qed.

Lemma roll_mean_lookup_prefix w (xs xs' : list cell) j :
  (j < length xs)%nat → (j < length xs')%nat →
  take (S j) xs = take (S j) xs' →
  roll_mean w xs !! j = roll_mean w xs' !! j.
Proof.
  intros Hj Hj' H. unfold roll_mean.
  change (map ?f ?l) with (f <$> l).
  rewrite !list_lookup_fmap, !lookup_seq_lt by done. simpl.
  do 2 f_equal. apply roll_mean_at_prefix.
  by rewrite <- !fmap_take, H.
Qed.

Lemma ewm_mean_lookup_prefix span (xs xs' ys ys' : list cell) j :
  ewm_mean span xs = inr ys → ewm_mean span xs' = inr ys' →
  take (S j) xs = take (S j) xs' →
  ys !! j = ys' !! j.
Proof.
  unfold ewm_mean. destruct (span <? 1); [discriminate|].
  intros [= <-] [= <-] H.
  rewrite !list_lookup_fmap. f_equal. apply ewm_loop_prefix.
  by rewrite <- !fmap_take, H.
Qed.

(** X14. The position of a day looks at earlier days only.  Two frames
    whose closes agree on the first [i] rows get, from [calculate_sma]
    with the same windows, the same position at row [i], whatever the
    closes of row [i] and of the later rows are; the same holds for the
    exponential cell. *)
Theorem position_has_no_lookahead (dfi dfi' : DataFrame) (fw sw : Z)
    (i : nat) :
  (i < length dfi)%nat → (i < length dfi')%nat →
  take i (col_DlyClose dfi) = take i (col_DlyClose dfi') →
  (0 ≤ fw → 0 ≤ sw →
   ∃ dfo dfo' position position',
     calculate_sma fw sw dfi = (inr dfo, dfo) ∧
     calculate_sma fw sw dfi' = (inr dfo', dfo') ∧
     getcol "Position" dfo = inr position ∧
     getcol "Position" dfo' = inr position' ∧
     is_Some (position !! i) ∧ position !! i = position' !! i) ∧
  (1 ≤ fw → 1 ≤ sw →
   ∃ position position',
     getcol "Position" (ema_strategy fw sw dfi).2 = inr position ∧
     getcol "Position" (ema_strategy fw sw dfi').2 = inr position' ∧
     is_Some (position !! i) ∧ position !! i = position' !! i).
Proof.
  intros Hi Hi' Hpre. split; intros Hfw Hsw.
  - destruct (calculate_sma_columns dfi fw sw Hfw Hsw)
      as (dfo & Hrun & Hlen & _ & _ & fast & slow & signal & position
          & _ & _ & _ & Hp & Lf & Ls & _ & Lp & Hf & Hs & -> & ->).
    destruct (calculate_sma_columns dfi' fw sw Hfw Hsw)
      as (dfo' & Hrun' & Hlen' & _ & _ & fast' & slow' & signal' & position'
          & _ & _ & _ & Hp' & Lf' & Ls' & _ & Lp' & Hf' & Hs' & -> & ->).
    exists dfo, dfo', (shift (crossover_signal fast slow)),
      (shift (crossover_signal fast' slow')).
    split; [done|]. split; [done|]. split; [done|]. split; [done|].
    split; [apply lookup_lt_is_Some_2; lia|].
    apply lagged_crossover_prefix; [congruence|congruence|lia|lia|].
    intros j Hj.
    assert (take (S j) (col_DlyClose dfi) = take (S j) (col_DlyClose dfi'))
      as Hpre' by (apply (take_prefix _ _ i); [lia|done]).
    unfold rolling_mean in Hf, Hs, Hf', Hs'.
    destruct (fw <? 0); [discriminate|]. destruct (sw <? 0); [discriminate|].
    injection Hf as <-. injection Hs as <-.
    injection Hf' as <-. injection Hs' as <-.
    split; apply roll_mean_lookup_prefix;
      rewrite ?length_col_DlyClose; try lia; done.
  - destruct (ema_strategy_columns dfi fw sw Hfw Hsw)
      as (Hlen & fast & slow & signal & position
          & _ & _ & _ & Hp & Lf & Ls & _ & Lp & Hf & Hs & -> & ->).
    destruct (ema_strategy_columns dfi' fw sw Hfw Hsw)
      as (Hlen' & fast' & slow' & signal' & position'
          & _ & _ & _ & Hp' & Lf' & Ls' & _ & Lp' & Hf' & Hs' & -> & ->).
    exists (shift (crossover_signal fast slow)),
      (shift (crossover_signal fast' slow')).
    split; [done|]. split; [done|].
    split; [apply lookup_lt_is_Some_2; lia|].
    apply lagged_crossover_prefix; [congruence|congruence|lia|lia|].
    intros j Hj.
    assert (take (S j) (col_DlyClose dfi) = take (S j) (col_DlyClose dfi'))
      as Hpre' by (apply (take_prefix _ _ i); [lia|done]).
    split; eapply ewm_mean_lookup_prefix; eauto.
Qed.

Lemma position_has_no_lookahead_witness :
  (3 < length spec_example)%nat ∧
  (3 < length (prices "META" [10; 11; 12; 20; 1]%Q))%nat ∧
  take 3 (col_DlyClose spec_example)
  = take 3 (col_DlyClose (prices "META" [10; 11; 12; 20; 1]%Q)) ∧
  (∃ dfo dfo' position position',
     calculate_sma 2 3 spec_example = (inr dfo, dfo) ∧
     calculate_sma 2 3 (prices "META" [10; 11; 12; 20; 1]%Q)
     = (inr dfo', dfo') ∧
     getcol "Position" dfo = inr position ∧
     getcol "Position" dfo' = inr position' ∧
     is_Some (position !! 3%nat) ∧ position !! 3%nat = position' !! 3%nat) ∧
  (∃ position position',
     getcol "Position" (ema_strategy 2 3 spec_example).2 = inr position ∧
     getcol "Position"
       (ema_strategy 2 3 (prices "META" [10; 11; 12; 20; 1]%Q)).2
     = inr position' ∧
     is_Some (position !! 3%nat) ∧ position !! 3%nat = position' !! 3%nat).
Proof.
  assert ((3 < length spec_example)%nat) as H1 by (vm_compute; lia).
  assert ((3 < length (prices "META" [10; 11; 12; 20; 1]%Q))%nat) as H2
    by (vm_compute; lia).
  assert (take 3 (col_DlyClose spec_example)
          = take 3 (col_DlyClose (prices "META" [10; 11; 12; 20; 1]%Q)))
    as H3 by (vm_compute; reflexivity).
  split; [exact H1|]. split; [exact H2|]. split; [exact H3|].
  destruct (position_has_no_lookahead spec_example
              (prices "META" [10; 11; 12; 20; 1]%Q) 2 3 3 H1 H2 H3)
    as [Hsma Hema].
  split; [apply Hsma; lia|apply Hema; lia].
Defined.

(** * [calculate_sma] in every arrangement of its statements *)

(** ** The arrangements that run *)

Lemma elem_of_arrangements body :
  body ∈ arrangements ↔
  body = [FastMA_rolling; SlowMA_rolling; Signal_comparison; Signal_zeroing;
          Position_shift] ∨
  body = [SlowMA_rolling; FastMA_rolling; Signal_comparison; Signal_zeroing;
          Position_shift] ∨
  body = [FastMA_rolling; SlowMA_rolling; Signal_comparison; Position_shift;
          Signal_zeroing] ∨
  body = [SlowMA_rolling; FastMA_rolling; Signal_comparison; Position_shift;
          Signal_zeroing].
Proof.
  unfold arrangements. rewrite !elem_of_cons, elem_of_nil. tauto.
Qed.

(** The arrangements are the permutations of the five statements in which
    every statement reads assigned columns only. *)
Lemma arrangements_reads_assigned body :
  body ∈ arrangements ↔ body ≡ₚ statements ∧ reads_assigned [] body = true.
Proof.
  assert (body ≡ₚ statements ↔ body ∈ permutations statements) as ->
    by (rewrite permutations_Permutation; split; intros H; by symmetry).
  split.
  - intros H. apply elem_of_arrangements in H.
    destruct H as [-> | [-> | [-> | ->]]]; (split; [|reflexivity]);
      apply (bool_decide_unpack _); vm_compute; reflexivity.
  - intros [Hp Hr]. revert Hr.
    assert (Forall (λ b, reads_assigned [] b = true → b ∈ arrangements)
              (permutations statements)) as Hall
      by (apply (bool_decide_unpack _); vm_compute; reflexivity).
    rewrite Forall_forall in Hall. by apply Hall.
Qed.

(** ** What an arrangement leaves in the frame *)

Lemma length_comparison_signal fast slow :
  length slow = length fast →
  length (comparison_signal fast slow) = length fast.
Proof.
  intros H. unfold comparison_signal, np_where_const, gt.
  rewrite length_map, length_zip_with. lia.
Qed.

Lemma length_position_signal body fast slow :
  length slow = length fast →
  length (position_signal body fast slow) = length fast.
Proof.
  intros H. unfold position_signal. destruct (zeroing_first body).
  - by apply length_crossover_signal.
  - by apply length_comparison_signal.
Qed.

Lemma calculate_sma_arranged_run body fw sw dfi fast slow :
  body ∈ arrangements →
  rolling_mean fw (col_DlyClose dfi) = inr fast →
  rolling_mean sw (col_DlyClose dfi) = inr slow →
  calculate_sma_arranged body fw sw dfi
  = (inr (arranged_frame body fast slow dfi),
     arranged_frame body fast slow dfi).
Proof.
  intros Hb Hf Hs.
  pose proof (length_rolling_mean _ _ _ Hf) as Lf.
  pose proof (length_rolling_mean _ _ _ Hs) as Ls.
  rewrite length_col_DlyClose in Lf, Ls.
  apply elem_of_arrangements in Hb.
  destruct Hb as [-> | [-> | [-> | ->]]];
    unfold calculate_sma_arranged, run_statements, run_statement; run_step.
  - rewrite Hf. cbv beta iota.
    rewrite col_DlyClose_setcol, Hs by done. cbv beta iota.
    repeat (read_col; cbv beta iota).
    reflexivity.
  - rewrite Hs. cbv beta iota.
    rewrite col_DlyClose_setcol, Hf by done. cbv beta iota.
    repeat (read_col; cbv beta iota).
    by rewrite (setcol_comm "FastMA" "SlowMA").
  - rewrite Hf. cbv beta iota.
    rewrite col_DlyClose_setcol, Hs by done. cbv beta iota.
    repeat (read_col; cbv beta iota).
    by rewrite (setcol_comm "Signal" "Position").
  - rewrite Hs. cbv beta iota.
    rewrite col_DlyClose_setcol, Hf by done. cbv beta iota.
    repeat (read_col; cbv beta iota).
    by rewrite (setcol_comm "FastMA" "SlowMA"),
      (setcol_comm "Signal" "Position").
Qed.

Lemma arranged_frame_zeroing_first body fast slow df :
  zeroing_first body = true →
  arranged_frame body fast slow df = crossover_frame "FastMA" "SlowMA" fast slow df.
Proof.
  intros H. unfold arranged_frame, position_signal. by rewrite H.
Qed.

Section arranged_frame.
Variables (body : list statement) (fast slow : list cell) (df : DataFrame).
Hypothesis length_fast : length fast = length df.
Hypothesis length_slow : length slow = length df.

Lemma length_arranged_frame :
  length (arranged_frame body fast slow df) = length df.
Proof using length_fast length_slow.
  pose proof (length_position_signal body fast slow) as Lp.
  pose proof (length_crossover_signal fast slow) as Lc.
  pose proof (length_comparison_signal fast slow) as Lr.
  unfold arranged_frame.
  rewrite !length_setcol_min, length_shift. lia.
Qed.

Lemma arranged_frame_columns :
  getcol "FastMA" (arranged_frame body fast slow df) = inr fast ∧
  getcol "SlowMA" (arranged_frame body fast slow df) = inr slow ∧
  getcol "Signal" (arranged_frame body fast slow df)
  = inr (crossover_signal fast slow) ∧
  getcol "Position" (arranged_frame body fast slow df)
  = inr (shift (position_signal body fast slow)).
Proof using length_fast length_slow.
  pose proof (length_position_signal body fast slow) as Lp.
  pose proof (length_crossover_signal fast slow) as Lc.
  pose proof (length_comparison_signal fast slow) as Lr.
  assert (length (shift (position_signal body fast slow)) = length df) as Ls
    by (rewrite length_shift; lia).
  unfold arranged_frame.
  set (pos := shift (position_signal body fast slow)) in *.
  set (sig := crossover_signal fast slow) in *.
  set (cmp := comparison_signal fast slow) in *.
  assert (length sig = length df) as Lsig by lia.
  assert (length cmp = length df) as Lcmp by lia.
  repeat split; by repeat read_col.
Qed.

Lemma same_outside_arranged_frame :
  same_outside ["FastMA"; "SlowMA"; "Signal"; "Position"] df
    (arranged_frame body fast slow df).
Proof using length_fast length_slow.
  pose proof (length_position_signal body fast slow) as Lp.
  pose proof (length_crossover_signal fast slow) as Lc.
  pose proof (length_comparison_signal fast slow) as Lr.
  assert (length (shift (position_signal body fast slow)) = length df) as Ls
    by (rewrite length_shift; lia).
  unfold arranged_frame.
  set (pos := shift (position_signal body fast slow)) in *.
  set (sig := crossover_signal fast slow) in *.
  set (cmp := comparison_signal fast slow) in *.
  assert (length sig = length df) as Lsig by lia.
  assert (length cmp = length df) as Lcmp by lia.
  repeat (eapply same_outside_trans;
          [|apply same_outside_setcol;
            [repeat first [apply list_elem_of_here | apply list_elem_of_further]
            | solve_len]]).
  apply same_outside_refl.
Qed.

Lemma col_DlyClose_arranged_frame :
  col_DlyClose (arranged_frame body fast slow df) = col_DlyClose df.
Proof using length_fast length_slow.
  pose proof (same_outside_base _ _ _ same_outside_arranged_frame) as H.
  unfold col_DlyClose. change (map ?f ?l) with (f <$> l).
  apply (f_equal (fmap (λ b : string * Z * Q, Float (Some b.2)))) in H.
  rewrite <- !list_fmap_compose in H. exact H.
Qed.
End arranged_frame.

Lemma calculate_sma_arranged_columns body dfi fw sw :
  body ∈ arrangements → 0 ≤ fw → 0 ≤ sw →
  ∃ dfo, calculate_sma_arranged body fw sw dfi = (inr dfo, dfo) ∧
    length dfo = length dfi ∧
    same_outside ["FastMA"; "SlowMA"; "Signal"; "Position"] dfi dfo ∧
    crossover_columns "FastMA" "SlowMA" dfo (λ fast slow signal position,
      rolling_mean fw (col_DlyClose dfi) = inr fast ∧
      rolling_mean sw (col_DlyClose dfi) = inr slow ∧
      signal = crossover_signal fast slow ∧
      position = shift (position_signal body fast slow)).
Proof.
  intros Hb Hfw Hsw.
  pose proof (rolling_mean_ok fw (col_DlyClose dfi) Hfw) as Hf.
  pose proof (rolling_mean_ok sw (col_DlyClose dfi) Hsw) as Hs.
  set (fast := roll_mean _ _) in Hf. set (slow := roll_mean _ _) in Hs.
  pose proof (length_rolling_mean _ _ _ Hf) as Lf.
  pose proof (length_rolling_mean _ _ _ Hs) as Ls.
  rewrite length_col_DlyClose in Lf, Ls.
  exists (arranged_frame body fast slow dfi).
  pose proof (length_arranged_frame body fast slow dfi Lf Ls) as Le.
  destruct (arranged_frame_columns body fast slow dfi Lf Ls)
    as (H1 & H2 & H3 & H4).
  split; [by apply calculate_sma_arranged_run|].
  split; [done|].
  split; [by apply same_outside_arranged_frame|].
  exists fast, slow, (crossover_signal fast slow),
    (shift (position_signal body fast slow)).
  rewrite length_shift, length_position_signal, length_crossover_signal, Le
    by congruence.
  done.
Qed.

(** With the zeroing before the position, an arrangement does what
    [calculate_sma] does. *)
Lemma calculate_sma_arranged_zeroing_first body dfi fw sw :
  body ∈ arrangements → zeroing_first body = true → 0 ≤ fw → 0 ≤ sw →
  calculate_sma_arranged body fw sw dfi = calculate_sma fw sw dfi.
Proof.
  intros Hb Hz Hfw Hsw.
  pose proof (rolling_mean_ok fw (col_DlyClose dfi) Hfw) as Hf.
  pose proof (rolling_mean_ok sw (col_DlyClose dfi) Hsw) as Hs.
  rewrite (calculate_sma_arranged_run body fw sw dfi _ _ Hb Hf Hs).
  rewrite (calculate_sma_run fw sw dfi _ _ Hf Hs).
  by rewrite arranged_frame_zeroing_first.
Qed.

(** In every arrangement the frame is the one [calculate_sma] leaves, but
    for the [Position] column. *)
Lemma calculate_sma_arranged_outside_Position body dfi fw sw :
  body ∈ arrangements → 0 ≤ fw → 0 ≤ sw →
  ∃ position,
    length position = length dfi ∧
    (calculate_sma_arranged body fw sw dfi).2
    = setcol "Position" position (calculate_sma fw sw dfi).2.
Proof.
  intros Hb Hfw Hsw.
  pose proof (rolling_mean_ok fw (col_DlyClose dfi) Hfw) as Hf.
  pose proof (rolling_mean_ok sw (col_DlyClose dfi) Hsw) as Hs.
  set (fast := roll_mean _ _) in Hf. set (slow := roll_mean _ _) in Hs.
  pose proof (length_rolling_mean _ _ _ Hf) as Lf.
  pose proof (length_rolling_mean _ _ _ Hs) as Ls.
  rewrite length_col_DlyClose in Lf, Ls.
  rewrite (calculate_sma_arranged_run body fw sw dfi _ _ Hb Hf Hs).
  rewrite (calculate_sma_run fw sw dfi _ _ Hf Hs).
  cbn [snd].
  pose proof (length_crossover_signal fast slow) as Lc.
  pose proof (length_comparison_signal fast slow) as Lr.
  pose proof (length_position_signal body fast slow) as Lp.
  exists (shift (position_signal body fast slow)).
  split; [rewrite length_shift; lia|].
  unfold arranged_frame, crossover_frame.
  fold (comparison_signal fast slow).
  rewrite (setcol_setcol "Position"); [done|].
  rewrite length_shift, !length_setcol_min. lia.
Qed.

(** ** Failures, in every arrangement *)

Lemma calculate_sma_arranged_rejected body fw sw dfi :
  body ∈ arrangements →
  let first_window := if fast_first body then fw else sw in
  let second_window := if fast_first body then sw else fw in
  let first_column := if fast_first body then "FastMA" else "SlowMA" in
  (first_window < 0 →
   calculate_sma_arranged body fw sw dfi = (inl ValueError, dfi)) ∧
  (0 ≤ first_window → second_window < 0 →
   calculate_sma_arranged body fw sw dfi
   = (inl ValueError,
      setcol first_column
        (roll_mean (Z.to_nat first_window) (col_DlyClose dfi)) dfi)).
Proof.
  intros Hb. apply elem_of_arrangements in Hb.
  destruct Hb as [-> | [-> | [-> | ->]]]; cbv zeta;
    change (fast_first _) with true || change (fast_first _) with false;
    cbv iota; (split; [intros H1|intros H1 H2]);
    unfold calculate_sma_arranged, run_statements, run_statement; run_step.
  all: try (unfold rolling_mean; by rewrite (proj2 (Z.ltb_lt _ 0) H1)).
  all: rewrite (rolling_mean_ok _ _ H1); cbv beta iota;
    unfold rolling_mean; by rewrite (proj2 (Z.ltb_lt _ 0) H2).
Qed.

(** [calculate_sma] is the first of the arrangements. *)
Lemma calculate_sma_arranged_first dfi fw sw :
  calculate_sma_arranged
    [FastMA_rolling; SlowMA_rolling; Signal_comparison; Signal_zeroing;
     Position_shift] fw sw dfi
  = calculate_sma fw sw dfi.
Proof.
  assert ([FastMA_rolling; SlowMA_rolling; Signal_comparison; Signal_zeroing;
           Position_shift] ∈ arrangements) as Hb
    by (apply elem_of_arrangements; by left).
  destruct (calculate_sma_arranged_rejected _ fw sw dfi Hb) as [H1 H2].
  cbv zeta in H1, H2.
  change (fast_first _) with true in H1, H2. cbv iota in H1, H2.
  destruct (Z.lt_ge_cases fw 0) as [Hfw|Hfw].
  { by rewrite H1, calculate_sma_fast_rejected. }
  destruct (Z.lt_ge_cases sw 0) as [Hsw|Hsw].
  { by rewrite H2, calculate_sma_slow_rejected. }
  by apply calculate_sma_arranged_zeroing_first.
Qed.

Lemma canonical_arrangement :
  [FastMA_rolling; SlowMA_rolling; Signal_comparison; Signal_zeroing;
   Position_shift] ∈ arrangements.
Proof. apply elem_of_arrangements. by left. Qed.

Lemma slow_first_arrangement :
  [SlowMA_rolling; FastMA_rolling; Signal_comparison; Signal_zeroing;
   Position_shift] ∈ arrangements.
Proof. apply elem_of_arrangements. right. by left. Qed.

Lemma position_first_arrangement :
  [FastMA_rolling; SlowMA_rolling; Signal_comparison; Position_shift;
   Signal_zeroing] ∈ arrangements.
Proof. apply elem_of_arrangements. right. right. by left. Qed.

(** C4, as the code has it, in every arrangement of the statements that
    runs.  [calculate_sma] checks nothing itself and has no failure for an
    empty series or a zero window.  Its only failure is the ValueError
    that [rolling] raises for a negative window.  It is raised by the
    first of the two [rolling] statements whose window is negative: before
    anything is assigned when that is the first of the two, and after the
    other average has been computed and assigned when it is the second.
    In every other case the function returns a frame with as many rows as
    it was given. *)
Theorem calculate_sma_failures (body : list statement) (dfi : DataFrame)
    (fw sw : Z) :
  body ∈ arrangements →
  let first_window := if fast_first body then fw else sw in
  let second_window := if fast_first body then sw else fw in
  let first_column := if fast_first body then "FastMA" else "SlowMA" in
  (first_window < 0 →
   calculate_sma_arranged body fw sw dfi = (inl ValueError, dfi)) ∧
  (0 ≤ first_window → second_window < 0 →
   ∃ avg, rolling_mean first_window (col_DlyClose dfi) = inr avg ∧
     calculate_sma_arranged body fw sw dfi
     = (inl ValueError, setcol first_column avg dfi)) ∧
  (0 ≤ fw → 0 ≤ sw →
   ∃ dfo, calculate_sma_arranged body fw sw dfi = (inr dfo, dfo) ∧
     length dfo = length dfi).
Proof.
  intros Hb first_window second_window first_column.
  destruct (calculate_sma_arranged_rejected body fw sw dfi Hb) as [H1 H2].
  split; [exact H1|]. split.
  - intros Hw1 Hw2. eexists. split; [by apply rolling_mean_ok|].
    by apply H2.
  - intros Hfw Hsw.
    destruct (calculate_sma_arranged_columns body dfi fw sw Hb Hfw Hsw)
      as (dfo & ? & ? & _).
    eauto.
Qed.

Lemma calculate_sma_failures_witness :
  [FastMA_rolling; SlowMA_rolling; Signal_comparison; Signal_zeroing;
   Position_shift] ∈ arrangements ∧
  [SlowMA_rolling; FastMA_rolling; Signal_comparison; Signal_zeroing;
   Position_shift] ∈ arrangements ∧
  (0 ≤ 0 ∧ 0 ≤ 0 ∧
   ∃ dfo,
     calculate_sma_arranged
       [FastMA_rolling; SlowMA_rolling; Signal_comparison; Signal_zeroing;
        Position_shift] 0 0 [] = (inr dfo, dfo) ∧
     length dfo = length ([] : DataFrame)) ∧
  (-1 < 0 ∧
   calculate_sma_arranged
     [FastMA_rolling; SlowMA_rolling; Signal_comparison; Signal_zeroing;
      Position_shift] (-1) 3 spec_example
   = (inl ValueError, spec_example)) ∧
  (0 ≤ 2 ∧ -3 < 0 ∧
   ∃ fast, rolling_mean 2 (col_DlyClose spec_example) = inr fast ∧
     calculate_sma_arranged
       [FastMA_rolling; SlowMA_rolling; Signal_comparison; Signal_zeroing;
        Position_shift] 2 (-3) spec_example
     = (inl ValueError, setcol "FastMA" fast spec_example)) ∧
  (0 ≤ 3 ∧ -2 < 0 ∧
   ∃ slow, rolling_mean 3 (col_DlyClose spec_example) = inr slow ∧
     calculate_sma_arranged
       [SlowMA_rolling; FastMA_rolling; Signal_comparison; Signal_zeroing;
        Position_shift] (-2) 3 spec_example
     = (inl ValueError, setcol "SlowMA" slow spec_example)).
Proof.
  split; [exact canonical_arrangement|].
  split; [exact slow_first_arrangement|].
  split; [|split; [|split]].
  - split; [lia|]. split; [lia|].
    apply (proj2 (proj2 (calculate_sma_failures _ [] 0 0
                           canonical_arrangement))); lia.
  - split; [lia|].
    apply (proj1 (calculate_sma_failures _ spec_example (-1) 3
                    canonical_arrangement)). simpl. lia.
  - split; [lia|]. split; [lia|].
    apply (proj1 (proj2 (calculate_sma_failures _ spec_example 2 (-3)
                           canonical_arrangement))); simpl; lia.
  - split; [lia|]. split; [lia|].
    apply (proj1 (proj2 (calculate_sma_failures _ spec_example (-2) 3
                           slow_first_arrangement))); simpl; lia.
Defined.

(** C4, as stated, fails in every arrangement: an empty series and a zero
    window are both accepted and give a result; and there is a negative
    window for which the failure comes after an average has been computed
    and assigned into the frame. *)
Lemma calculate_sma_accepts_empty_series_and_zero_window :
  Forall (λ body,
    (calculate_sma_arranged body 50 200 []).1 = inr [] ∧
    (∃ dfo, (calculate_sma_arranged body 0 0 spec_example).1 = inr dfo ∧
            getcol "SlowMA" dfo = inr (replicate 6 (Float NaN))) ∧
    (∃ fw sw, (fw < 0 ∨ sw < 0) ∧
       (calculate_sma_arranged body fw sw spec_example).1 = inl ValueError ∧
       (calculate_sma_arranged body fw sw spec_example).2 ≠ spec_example))
    arrangements.
Proof.
  repeat apply Forall_cons_2; [| | | |apply Forall_nil_2].
  - split; [reflexivity|]. split.
    + eexists. split; vm_compute; reflexivity.
    + exists 2, (-3). split; [lia|]. split; [vm_compute; reflexivity|].
      intros H. apply (f_equal (getcol "FastMA")) in H.
      vm_compute in H. discriminate.
  - split; [reflexivity|]. split.
    + eexists. split; vm_compute; reflexivity.
    + exists (-2), 3. split; [lia|]. split; [vm_compute; reflexivity|].
      intros H. apply (f_equal (getcol "SlowMA")) in H.
      vm_compute in H. discriminate.
  - split; [reflexivity|]. split.
    + eexists. split; vm_compute; reflexivity.
    + exists 2, (-3). split; [lia|]. split; [vm_compute; reflexivity|].
      intros H. apply (f_equal (getcol "FastMA")) in H.
      vm_compute in H. discriminate.
  - split; [reflexivity|]. split.
    + eexists. split; vm_compute; reflexivity.
    + exists (-2), 3. split; [lia|]. split; [vm_compute; reflexivity|].
      intros H. apply (f_equal (getcol "SlowMA")) in H.
      vm_compute in H. discriminate.
Qed.

(** ** What the function does to the frame it is given *)

(** C8, as the code has it, in every arrangement of the statements that
    runs.  [calculate_sma] assigns into the frame it is given.  Whatever
    the windows, that frame keeps its rows, their ticker, day and close
    price and every column other than [FastMA], [SlowMA], [Signal] and
    [Position], and the frame that is returned is that same frame, as
    assigned.  For windows that [rolling] accepts the four columns are
    assigned: [FastMA] and [SlowMA] hold the rolling means of the closes,
    [Signal] the zeroed comparison of the two, and [Position] the shifted
    signal, as it was when the position statement ran. *)
Theorem calculate_sma_frame_effect (body : list statement) (dfi : DataFrame)
    (fw sw : Z) :
  body ∈ arrangements →
  same_outside ["FastMA"; "SlowMA"; "Signal"; "Position"]
    dfi (calculate_sma_arranged body fw sw dfi).2 ∧
  col_DlyClose (calculate_sma_arranged body fw sw dfi).2 = col_DlyClose dfi ∧
  (∀ out, (calculate_sma_arranged body fw sw dfi).1 = inr out →
          out = (calculate_sma_arranged body fw sw dfi).2) ∧
  (0 ≤ fw → 0 ≤ sw →
   ∃ dfo, calculate_sma_arranged body fw sw dfi = (inr dfo, dfo) ∧
     crossover_columns "FastMA" "SlowMA" dfo (λ fast slow signal position,
       rolling_mean fw (col_DlyClose dfi) = inr fast ∧
       rolling_mean sw (col_DlyClose dfi) = inr slow ∧
       signal = crossover_signal fast slow ∧
       position = shift (position_signal body fast slow))).
Proof.
  intros Hb.
  assert (0 ≤ fw → 0 ≤ sw →
          ∃ dfo, calculate_sma_arranged body fw sw dfi = (inr dfo, dfo) ∧
            same_outside ["FastMA"; "SlowMA"; "Signal"; "Position"] dfi dfo ∧
            crossover_columns "FastMA" "SlowMA" dfo
              (λ fast slow signal position,
                 rolling_mean fw (col_DlyClose dfi) = inr fast ∧
                 rolling_mean sw (col_DlyClose dfi) = inr slow ∧
                 signal = crossover_signal fast slow ∧
                 position = shift (position_signal body fast slow)))
    as Hok.
  { intros Hfw Hsw.
    destruct (calculate_sma_arranged_columns body dfi fw sw Hb Hfw Hsw)
      as (dfo & Hrun & _ & Hsame & Hcols).
    by exists dfo. }
  assert (∀ df : DataFrame, same_outside
            ["FastMA"; "SlowMA"; "Signal"; "Position"] dfi df →
            col_DlyClose df = col_DlyClose dfi) as Hclose.
  { intros df H. apply same_outside_base in H.
    unfold col_DlyClose. change (map ?f ?l) with (f <$> l).
    apply (f_equal (fmap (λ b : string * Z * Q, Float (Some b.2)))) in H.
    rewrite <- !list_fmap_compose in H. exact H. }
  assert (same_outside ["FastMA"; "SlowMA"; "Signal"; "Position"]
            dfi (calculate_sma_arranged body fw sw dfi).2 ∧
          ∀ out, (calculate_sma_arranged body fw sw dfi).1 = inr out →
                 out = (calculate_sma_arranged body fw sw dfi).2)
    as [Hsame Hret].
  { destruct (calculate_sma_arranged_rejected body fw sw dfi Hb)
      as [H1 H2]. cbv zeta in H1, H2.
    set (w1 := if fast_first body then fw else sw) in *.
    set (w2 := if fast_first body then sw else fw) in *.
    destruct (Z.lt_ge_cases w1 0) as [Hw1|Hw1].
    { rewrite (H1 Hw1). simpl. split; [apply same_outside_refl|done]. }
    destruct (Z.lt_ge_cases w2 0) as [Hw2|Hw2].
    { rewrite (H2 Hw1 Hw2). simpl. split; [|done].
      apply same_outside_setcol.
      - destruct (fast_first body);
          [apply list_elem_of_here
          |apply list_elem_of_further, list_elem_of_here].
      - by rewrite length_roll_mean, length_col_DlyClose. }
    assert (0 ≤ fw ∧ 0 ≤ sw) as [Hfw Hsw]
      by (subst w1 w2; destruct (fast_first body); lia).
    destruct (Hok Hfw Hsw) as (dfo & Hrun & Hs & _).
    rewrite Hrun. cbn [fst snd]. split; [done|]. intros out H. congruence. }
  split; [done|]. split; [by apply Hclose|]. split; [done|].
  intros Hfw Hsw. destruct (Hok Hfw Hsw) as (dfo & Hrun & _ & Hcols).
  by exists dfo.
Qed.

Lemma calculate_sma_frame_effect_witness :
  [FastMA_rolling; SlowMA_rolling; Signal_comparison; Position_shift;
   Signal_zeroing] ∈ arrangements ∧
  0 ≤ 2 ∧ 0 ≤ 3 ∧
  ∃ dfo,
    calculate_sma_arranged
      [FastMA_rolling; SlowMA_rolling; Signal_comparison; Position_shift;
       Signal_zeroing] 2 3 spec_example = (inr dfo, dfo) ∧
    crossover_columns "FastMA" "SlowMA" dfo (λ fast slow signal position,
      rolling_mean 2 (col_DlyClose spec_example) = inr fast ∧
      rolling_mean 3 (col_DlyClose spec_example) = inr slow ∧
      signal = crossover_signal fast slow ∧
      position
      = shift (position_signal
                 [FastMA_rolling; SlowMA_rolling; Signal_comparison;
                  Position_shift; Signal_zeroing] fast slow)).
Proof.
  split; [exact position_first_arrangement|].
  split; [lia|]. split; [lia|].
  apply (proj2 (proj2 (proj2
           (calculate_sma_frame_effect _ spec_example 2 3
              position_first_arrangement)))); lia.
Defined.

(** C8, as stated, fails in every arrangement: after the call the frame
    that was passed has a [Signal] column it did not have. *)
Lemma calculate_sma_changes_its_argument :
  getcol "Signal" spec_example = inl AttributeError ∧
  Forall (λ body,
    (∃ signal,
       getcol "Signal" (calculate_sma_arranged body 2 3 spec_example).2
       = inr signal) ∧
    (calculate_sma_arranged body 2 3 spec_example).2 ≠ spec_example)
    arrangements.
Proof.
  split; [reflexivity|].
  repeat apply Forall_cons_2; [| | | |apply Forall_nil_2].
  all: split; [eexists; vm_compute; reflexivity|].
  all: intros H; apply (f_equal (getcol "Signal")) in H;
    vm_compute in H; discriminate.
Qed.

(** ** The position, in every arrangement *)

Lemma comparison_signal_lookup fast slow i f s :
  fast !! i = Some f → slow !! i = Some s →
  comparison_signal fast slow !! i
  = Some (Int (if fgt (to_float f) (to_float s) then 1 else -1)).
Proof.
  intros Hf Hs. unfold comparison_signal, np_where_const, gt.
  rewrite list_lookup_fmap, lookup_zip_with, Hf, Hs. simpl.
  by destruct (fgt (to_float f) (to_float s)).
Qed.





(** X8. The position before the slow window is full.  Before index
    [slow_window - 1] the slow average is missing and the signal is 0.  On
    the rows 1 to [slow_window - 1] the position is 0 when the zeroing
    comes before the position statement (the strategy is flat until the
    slow average exists), and -1 when the position statement comes first
    (the strategy is short from the second row on). *)
Theorem sma_position_before_slow_window (body : list statement)
    (dfi : DataFrame) (fw sw : Z) :
  body ∈ arrangements → 1 ≤ fw → 1 ≤ sw →
  ∃ dfo, calculate_sma_arranged body fw sw dfi = (inr dfo, dfo) ∧
    crossover_columns "FastMA" "SlowMA" dfo (λ _ slow signal position,
      ∀ i : nat, (i < length dfi)%nat →
        (Z.of_nat i < sw - 1 →
         slow !! i = Some (Float NaN) ∧ signal !! i = Some (Int 0)) ∧
        (1 ≤ Z.of_nat i < sw →
         position !! i
         = Some (Float (Some (inject_Z
                    (if zeroing_first body then 0 else -1)))))).
Proof.
  intros Hb Hfw Hsw.
  destruct (calculate_sma_arranged_columns body dfi fw sw)
    as (dfo & Hrun & Hlen & _ & Hcols); [done|lia|lia|].
  exists dfo. split; [done|].
  revert Hcols. apply crossover_columns_impl.
  intros fast slow signal position Lf Ls _ _ (Hf & Hs & -> & ->).
  pose proof (rolling_mean_defined_from sw dfi slow Hsw Hs) as Hslow.
  assert (∀ i : nat, (i < length dfi)%nat → Z.of_nat i < sw - 1 →
            slow !! i = Some (Float NaN) ∧
            crossover_signal fast slow !! i = Some (Int 0) ∧
            comparison_signal fast slow !! i = Some (Int (-1))) as Hsig.
  { intros i Hi Hlt.
    destruct (lookup_lt_is_Some_2 fast i) as [f Hfi]; [congruence|].
    destruct (Hslow i) as [Hnan _]; [by rewrite length_fmap|].
    split; [by apply Hnan|].
    rewrite (crossover_signal_lookup fast slow i _ _ Hfi (Hnan Hlt)).
    rewrite (comparison_signal_lookup fast slow i _ _ Hfi (Hnan Hlt)).
    simpl. by destruct (to_float f). }
  intros i Hi. split.
  - intros Hlt. destruct (Hsig i Hi Hlt) as (? & ? & _). done.
  - intros [Hi1 Hi2]. destruct i as [|j]; [lia|].
    destruct (Hsig j) as (_ & H0 & H1); [lia|lia|].
    unfold position_signal. destruct (zeroing_first body).
    + rewrite (shift_lookup_S _ j (Int 0)); [done|done|].
      rewrite length_crossover_signal; congruence.
    + rewrite (shift_lookup_S _ j (Int (-1))); [done|done|].
      rewrite length_comparison_signal; congruence.
Qed.

Lemma sma_position_before_slow_window_witness :
  [FastMA_rolling; SlowMA_rolling; Signal_comparison; Position_shift;
   Signal_zeroing] ∈ arrangements ∧
  1 ≤ 2 ∧ 1 ≤ 3 ∧
  ∃ dfo,
    calculate_sma_arranged
      [FastMA_rolling; SlowMA_rolling; Signal_comparison; Position_shift;
       Signal_zeroing] 2 3 spec_example = (inr dfo, dfo) ∧
    crossover_columns "FastMA" "SlowMA" dfo (λ _ slow signal position,
      ∀ i : nat, (i < length spec_example)%nat →
        (Z.of_nat i < 3 - 1 →
         slow !! i = Some (Float NaN) ∧ signal !! i = Some (Int 0)) ∧
        (1 ≤ Z.of_nat i < 3 →
         position !! i = Some (Float (Some (inject_Z (-1)))))).
Proof.
  split; [exact position_first_arrangement|]. split; [lia|]. split; [lia|].
  apply (sma_position_before_slow_window _ spec_example 2 3
           position_first_arrangement); lia.
Defined.

(** ** The arrangements that do not run *)

Lemma getcol_absent c r rest :
  extra r !! c = None → getcol c (r :: rest) = inl AttributeError.
Proof. intros H. simpl. by rewrite H. Qed.

Lemma columns_within_setcol have c vs df :
  columns_within have df → length vs = length df →
  columns_within (c :: have) (setcol c vs df).
Proof.
  intros (r & rest & -> & Hr) Hlen.
  destruct vs as [|v vs]; [discriminate|].
  exists (set_extra c v r), (setcol c vs rest). split; [done|].
  intros c' Hc'. apply not_elem_of_cons in Hc' as [Hne Hc'].
  simpl. rewrite lookup_insert_ne by done. by apply Hr.
Qed.

Lemma getcol_columns_within have c df :
  columns_within have df →
  match getcol c df with
  | inl e => e = AttributeError
  | inr vs => bool_decide (c ∈ have) = true ∧ length vs = length df
  end.
Proof.
  intros (r & rest & -> & Hr).
  destruct (getcol c (r :: rest)) as [e|vs] eqn:E.
  - by apply (getcol_error c (r :: rest)).
  - split; [|by apply (length_getcol c)].
    apply bool_decide_eq_true. destruct (decide (c ∈ have)) as [|Hn]; [done|].
    rewrite (getcol_absent c r rest (Hr c Hn)) in E. discriminate.
Qed.

Lemma run_statement_columns_within have fw sw s df :
  columns_within have df → 0 ≤ fw → 0 ≤ sw →
  match run_statement fw sw s df with
  | (inl e, _) => e = AttributeError
  | (inr _, df') =>
    forallb (λ c, bool_decide (c ∈ have)) (reads s) = true ∧
    columns_within (assigns s :: have) df'
  end.
Proof.
  intros Hw Hfw Hsw.
  destruct s; unfold run_statement; run_step.
  - rewrite (rolling_mean_ok fw) by done. split; [done|].
    apply columns_within_setcol; [done|].
    by rewrite length_roll_mean, length_col_DlyClose.
  - pose proof (getcol_columns_within have "Signal" df Hw) as H1.
    destruct (getcol "Signal" df) as [e|signal]; [done|].
    destruct H1 as [H1 L1]. simpl. rewrite H1. split; [done|].
    apply columns_within_setcol; [done|]. by rewrite length_shift.
  - pose proof (getcol_columns_within have "SlowMA" df Hw) as H1.
    destruct (getcol "SlowMA" df) as [e|slowma]; [done|].
    destruct H1 as [H1 L1].
    pose proof (getcol_columns_within have "Signal" df Hw) as H2.
    destruct (getcol "Signal" df) as [e|signal]; [done|].
    destruct H2 as [H2 L2]. simpl. rewrite H1, H2. split; [done|].
    apply columns_within_setcol; [done|].
    unfold np_where, isna_col. rewrite length_zip_with, length_map. lia.
  - pose proof (getcol_columns_within have "FastMA" df Hw) as H1.
    destruct (getcol "FastMA" df) as [e|fastma]; [done|].
    destruct H1 as [H1 L1].
    pose proof (getcol_columns_within have "SlowMA" df Hw) as H2.
    destruct (getcol "SlowMA" df) as [e|slowma]; [done|].
    destruct H2 as [H2 L2]. simpl. rewrite H1, H2. split; [done|].
    apply columns_within_setcol; [done|].
    unfold np_where_const, gt. rewrite length_map, length_zip_with. lia.
  - rewrite (rolling_mean_ok sw) by done. split; [done|].
    apply columns_within_setcol; [done|].
    by rewrite length_roll_mean, length_col_DlyClose.
Qed.

Lemma run_statements_unassigned have fw sw body df :
  columns_within have df → 0 ≤ fw → 0 ≤ sw →
  reads_assigned have body = false →
  (run_statements fw sw body df).1 = inl AttributeError.
Proof.
  intros Hw Hfw Hsw. revert have df Hw.
  induction body as [|s rest IH]; intros have df Hw Hr; [discriminate|].
  simpl in Hr.
  pose proof (run_statement_columns_within have fw sw s df Hw Hfw Hsw) as Hs.
  change (run_statements fw sw (s :: rest) df)
    with (match run_statement fw sw s df with
          | (inr a, df') => (λ _, run_statements fw sw rest) a df'
          | (inl e, df') => (inl e, df')
          end).
  destruct (run_statement fw sw s df) as [[e|[]] df']; [by rewrite Hs|].
  destruct Hs as [Hreads Hw']. rewrite Hreads in Hr. simpl in Hr.
  by apply (IH (assigns s :: have)).
Qed.

(** X15. The exercise has exactly four solutions.  On a frame as loaded
    from the file, with at least one row, and windows that [rolling]
    accepts, the statements of the exercise cell put in any order between
    the [def] line and [return dfi] give a function that returns the
    frame when the order is one of the four arrangements (the two averages
    in either order, the comparison, then the zeroing and the position in
    either order), and one that raises AttributeError in every other
    order, the order of the cell included. *)
Theorem arrangements_are_the_ones_that_run (body : list statement)
    (dfi : DataFrame) (fw sw : Z) :
  body ≡ₚ statements → dfi ≠ [] → as_loaded dfi → 0 ≤ fw → 0 ≤ sw →
  (body ∈ arrangements →
   ∃ dfo, calculate_sma_arranged body fw sw dfi = (inr dfo, dfo) ∧
          length dfo = length dfi) ∧
  (body ∉ arrangements →
   (calculate_sma_arranged body fw sw dfi).1 = inl AttributeError).
Proof.
  intros Hperm Hne Hloaded Hfw Hsw. split.
  - intros Hb.
    destruct (calculate_sma_arranged_columns body dfi fw sw Hb Hfw Hsw)
      as (dfo & Hrun & Hlen & _).
    by exists dfo.
  - intros Hb.
    assert (reads_assigned [] body = false) as Hr.
    { destruct (reads_assigned [] body) eqn:E; [|done].
      destruct Hb. by apply arrangements_reads_assigned. }
    assert (columns_within [] dfi) as Hw.
    { destruct dfi as [|r rest]; [done|]. exists r, rest. split; [done|].
      intros c _. apply Forall_cons_1 in Hloaded as [-> _].
      apply lookup_empty. }
    pose proof (run_statements_unassigned [] fw sw body dfi Hw Hfw Hsw Hr)
      as Hrun.
    unfold calculate_sma_arranged. run_step.
    destruct (run_statements fw sw body dfi) as [[e|[]] df'];
      simpl in Hrun; [|discriminate].
    by injection Hrun as ->.
Qed.

Lemma arrangements_are_the_ones_that_run_witness :
  Permutation statements statements ∧ spec_example ≠ [] ∧
  as_loaded spec_example ∧
  0 ≤ 50 ∧ 0 ≤ 200 ∧ (statements ∉ arrangements) ∧
  (calculate_sma_arranged statements 50 200 spec_example).1
  = inl AttributeError.
Proof.
  assert (as_loaded spec_example) as Hl
    by (repeat apply Forall_cons_2; [done..|apply Forall_nil_2]).
  assert (statements ∉ arrangements) as Hn
    by (intros H; apply elem_of_arrangements in H;
        destruct H as [H|[H|[H|H]]]; discriminate).
  split; [reflexivity|]. split; [discriminate|]. split; [exact Hl|].
  split; [lia|]. split; [lia|]. split; [exact Hn|].
  apply (proj2 (arrangements_are_the_ones_that_run statements spec_example
                  50 200 (reflexivity _) ltac:(discriminate) Hl
                  ltac:(lia) ltac:(lia))).
  exact Hn.
Defined.
